(** * extendedRLM: contour, convex hull, radial line model and force histograms

    A shallow embedding of [convex_hull.py] and of the histogram part of
    [image.py], with the properties of the written specification stated
    over it.

    Conventions of the embedding.
    - A mask is a Python list of lists of booleans, [obj[x][y]].
    - Python integers are [Z]; points are pairs of integers.
    - A Python exception is an [Err] result; indexing follows Python
      (negative indices count from the end, anything else out of range
      raises [IndexError]).
    - [int(a / b)] and [int(math.dist(p, q))] on integers are modelled by the
      exact truncated quotient and the exact integer square root.  The
      slope keys and the occupancy ratios, which Python holds as floats,
      are exact rationals here.
    - The float arithmetic of the sampling stage is a parameter of the
      embedding; one instance of it is binary64, computed with the
      kernel's primitive floats. *)

From Stdlib Require Import ZArith List Bool Lia QArith Qround Reals Lra.
From Stdlib Require Import Permutation Sorted.
From Stdlib Require PrimFloat FloatOps SpecFloat.
Import ListNotations.

Open Scope Z_scope.

(** ** Exceptions and the error monad *)

(** [IndexError] and [ZeroDivisionError] are the built-in exceptions of the
    list reads and the divisions of the source; [OverflowError] and
    [ValueError] are those of [int()] applied to an infinite float and to a
    NaN.  The other four are the names of the specification's error
    taxonomy; no source function raises them. *)
Inductive exn : Type :=
| IndexError
| ZeroDivisionError
| OverflowError
| ValueError
| EmptyContourError
| InsufficientHullError
| DegenerateObjectError
| DegenerateDistanceError.

Inductive result (A : Type) : Type :=
| Ok (a : A)
| Err (e : exn).

Arguments Ok {A} a.
Arguments Err {A} e.

Definition bind {A B : Type} (m : result A) (k : A -> result B) : result B :=
  match m with
  | Ok a => k a
  | Err e => Err e
  end.

Notation "'let?' x ':=' m 'in' k" := (bind m (fun x => k))
  (at level 10, x pattern, m at level 100, k at level 200).

(** Sequencing a fallible function over a list, left to right. *)
Fixpoint mapM {A B : Type} (f : A -> result B) (l : list A) : result (list B) :=
  match l with
  | [] => Ok []
  | a :: l' =>
      let? b := f a in
      let? bs := mapM f l' in
      Ok (b :: bs)
  end.

(** ** Python lists *)

Definition len {A : Type} (l : list A) : Z := Z.of_nat (length l).

(** The position a Python index denotes, if any. *)
Definition norm_index {A : Type} (l : list A) (i : Z) : option nat :=
  if (0 <=? i) && (i <? len l) then Some (Z.to_nat i)
  else if (i <? 0) && (- len l <=? i) then Some (Z.to_nat (len l + i))
  else None.

(** [l[i]] *)
Definition py_get {A : Type} (l : list A) (i : Z) : result A :=
  match norm_index l i with
  | Some n =>
      match nth_error l n with
      | Some a => Ok a
      | None => Err IndexError
      end
  | None => Err IndexError
  end.

Fixpoint remove_nth {A : Type} (n : nat) (l : list A) : list A :=
  match n, l with
  | _, [] => []
  | O, _ :: l' => l'
  | S n', a :: l' => a :: remove_nth n' l'
  end.

(** [l.pop(i)], keeping the list that remains. *)
Definition py_pop {A : Type} (l : list A) (i : Z) : result (list A) :=
  match norm_index l i with
  | Some n => Ok (remove_nth n l)
  | None => Err IndexError
  end.

(** [range(n)] as integers. *)
Definition range (n : Z) : list Z := map Z.of_nat (seq 0 (Z.to_nat n)).

(** [enumerate(l)] *)
Definition enumerate {A : Type} (l : list A) : list (Z * A) :=
  combine (range (len l)) l.

(** ** Masks and points *)

Definition mask : Type := list (list bool).
Definition point : Type := (Z * Z)%type.

(** A mask is rectangular when every row has the length of the first one. *)
Definition width_of (obj : mask) : Z :=
  match obj with
  | [] => 0
  | r :: _ => len r
  end.

Definition rectangular (obj : mask) : Prop :=
  Forall (fun r => len r = width_of obj) obj.

(** A square mask has as many columns as rows. *)
Definition square (obj : mask) : Prop :=
  rectangular obj /\ width_of obj = len obj.

(** The mask value at (x, y), [false] outside the grid. *)
Definition mask_at (obj : mask) (x y : Z) : bool :=
  if (0 <=? x) && (0 <=? y) then
    nth (Z.to_nat y) (nth (Z.to_nat x) obj []) false
  else false.

(** ** convex_hull.py *)

(** [obj[x][y]] *)
Definition obj_get (obj : mask) (x y : Z) : result bool :=
  let? row := py_get obj x in py_get row y.

(** [not (obj[x][y])] *)
Definition not_obj (obj : mask) (x y : Z) : result bool :=
  let? v := obj_get obj x y in Ok (negb v).

(** Python's [a or b] on fallible booleans: [b] is not evaluated when [a]
    holds. *)
Definition or_else (a : result bool) (b : result bool) : result bool :=
  let? v := a in if v then Ok true else b.

Definition isContour (obj : mask) (x y : Z) : result bool :=
  let? out :=
    (if (x <? 0) || (y <? 0) || (len obj <=? x) then Ok true
     else
       let? row0 := py_get obj 0 in
       if len row0 <=? y then Ok true
       else not_obj obj x y) in
  if out then Ok false
  else if (x =? 0) || (y =? 0) || (x =? len obj - 1) || (y =? len obj - 1)
  then Ok true
  else
    or_else (not_obj obj (x - 1) y)
      (or_else (not_obj obj (x + 1) y)
         (or_else (not_obj obj x (y - 1))
            (not_obj obj x (y + 1)))).

(** The inner loop of [object_contour]: [j] over [range(len(obj))]. *)
Fixpoint contour_row (obj : mask) (i : Z) (js : list Z) : result (list point) :=
  match js with
  | [] => Ok []
  | j :: js' =>
      let? c := isContour obj i j in
      let? rest := contour_row obj i js' in
      Ok (if c then (i, j) :: rest else rest)
  end.

Fixpoint contour_rows (obj : mask) (is_ : list Z) : result (list point) :=
  match is_ with
  | [] => Ok []
  | i :: is' =>
      let? r := contour_row obj i (range (len obj)) in
      let? rest := contour_rows obj is' in
      Ok (r ++ rest)
  end.

Definition object_contour (obj : mask) : result (list point) :=
  contour_rows obj (range (len obj)).

(** [get_corner_pixel]: the loop keeps the lexicographically smallest pixel
    seen so far, starting from the pair (9999, 9999). *)
Definition corner_step (min_pix pixel : point) : point :=
  if (fst pixel <? fst min_pix)
     || ((fst pixel =? fst min_pix) && (snd pixel <? snd min_pix))
  then pixel else min_pix.

Definition get_corner_pixel (contour : list point) : point :=
  fold_left corner_step contour (9999, 9999).

(** [compute_slope]: the integer 1 when the abscissas agree, the quotient
    otherwise. *)
Definition compute_slope (p1 p2 : point) : Q :=
  if fst p2 - fst p1 =? 0 then 1%Q
  else (inject_Z (snd p2 - snd p1) / inject_Z (fst p2 - fst p1))%Q.

Definition compute_power (line_p1 line_p2 pt : point) : Z :=
  let dy := snd line_p2 - snd line_p1 in
  let dx := fst line_p2 - fst line_p1 in
  dy * (fst pt - fst line_p1) - dx * (snd pt - snd line_p1).

(** [sorted(contour, key=...)] is a stable sort; the outcome of a stable
    sort is determined by the keys, so a stable insertion sort stands for
    it. *)
Fixpoint insert_by (key : point -> Q) (x : point) (l : list point) : list point :=
  match l with
  | [] => [x]
  | y :: l' =>
      if Qle_bool (key x) (key y) then x :: y :: l'
      else y :: insert_by key x l'
  end.

Fixpoint sorted_by (key : point -> Q) (l : list point) : list point :=
  match l with
  | [] => []
  | x :: l' => insert_by key x (sorted_by key l')
  end.

Definition sortby_slope (minpix : point) (contour : list point) : list point :=
  sorted_by (fun s => compute_slope minpix s) contour.

(** One turn of the [while] loop of [convex_hull]; [None] when the loop
    condition fails. *)
Definition prune_step (ch : list point) (i : Z)
  : option (result (list point * Z)) :=
  if i <? len ch - 1 then
    Some (let? a := py_get ch (i - 1) in
          let? c := py_get ch (i + 1) in
          let? b := py_get ch i in
          if 0 <=? compute_power a c b then Ok (ch, i + 1)
          else
            let? ch' := py_pop ch i in
            Ok (ch', i - 1))
  else None.

(** The loop, with the cursor values at which a power test was evaluated
    recorded next to the length the list had then.  The fuel bounds the
    number of turns; [None] is fuel exhaustion. *)
Fixpoint prune_loop (fuel : nat) (ch : list point) (i : Z)
  (trace : list (Z * Z)) : option (result (list point) * list (Z * Z)) :=
  match prune_step ch i with
  | None => Some (Ok ch, rev trace)
  | Some (Err e) => Some (Err e, rev trace)
  | Some (Ok (ch', i')) =>
      match fuel with
      | O => None
      | S fuel' => prune_loop fuel' ch' i' ((i, len ch) :: trace)
      end
  end.

(** Enough turns for any list: each turn lowers [2 * len ch - i]. *)
Definition prune_fuel (ch : list point) : nat := 2 * length ch.

Definition prune (ch : list point) : option (result (list point) * list (Z * Z)) :=
  prune_loop (prune_fuel ch) ch 1 [].

Definition convex_hull_of_contour (contour : list point)
  : option (result (point * list point)) :=
  let min_pix := get_corner_pixel contour in
  let sorted_contour := sortby_slope min_pix contour in
  match prune sorted_contour with
  | None => None
  | Some (r, _) => Some (let? ch := r in Ok (min_pix, ch))
  end.

Definition convex_hull (obj : mask) : option (result (point * list point)) :=
  match object_contour obj with
  | Err e => Some (Err e)
  | Ok contour => convex_hull_of_contour contour
  end.

(** The cursor values of the pruning pass of [convex_hull obj]. *)
Definition convex_hull_cursors (obj : mask) : list (Z * Z) :=
  match object_contour obj with
  | Err _ => []
  | Ok contour =>
      match prune (sortby_slope (get_corner_pixel contour) contour) with
      | None => []
      | Some (_, t) => t
      end
  end.

(** A power test at cursor [c] on a list of length [n] reads the positions
    [c - 1], [c] and [c + 1] with Python's indexing. *)
Definition cursor_in_reach (cn : Z * Z) : Prop :=
  1 - snd cn <= fst cn < snd cn - 1.

(** ** image.py *)

(** [manhattan] (defined in convex_hull.py, used by image.py). *)
Definition manhattan (x1 y1 x2 y2 : Z) : Z := Z.abs (x2 - x1) + Z.abs (y2 - y1).

Definition sq_dist (p q : point) : Z :=
  (fst p - fst q) * (fst p - fst q) + (snd p - snd q) * (snd p - snd q).

(** [int(math.dist(p, q))] on integer points. *)
Definition int_dist (p q : point) : Z := Z.sqrt (sq_dist p q).

(** [barycentre]: the two comprehensions, then the truncated means. *)
Definition x_pixels (obj : mask) : list Z :=
  flat_map (fun xr : Z * list bool =>
              flat_map (fun yv : Z * bool => if snd yv then [fst xr] else [])
                       (enumerate (snd xr)))
           (enumerate obj).

Definition y_pixels (obj : mask) : list Z :=
  flat_map (fun xr : Z * list bool =>
              flat_map (fun yv : Z * bool => if snd yv then [fst yv] else [])
                       (enumerate (snd xr)))
           (enumerate obj).

Definition sum (l : list Z) : Z := fold_left Z.add l 0.

(** [int(a / b)] for integers [a], [b]. *)
Definition int_div (a b : Z) : result Z :=
  if b =? 0 then Err ZeroDivisionError else Ok (Z.quot a b).

Definition barycentre (obj : mask) : result point :=
  let xs := x_pixels obj in
  let ys := y_pixels obj in
  let? bx := int_div (sum xs) (len xs) in
  let? by_ := int_div (sum ys) (len ys) in
  Ok (bx, by_).

(** The bounding box of [radial_line_model_radius], as the list
    [[minX, maxX, minY, maxY]]. *)
Record bbox_acc : Type := mk_bbox { minX : Z; maxX : Z; minY : Z; maxY : Z }.

Definition bbox_pixel (i j : Z) (value : bool) (b : bbox_acc) : bbox_acc :=
  if value then
    mk_bbox (if i <? minX b then i else minX b)
            (if maxX b <? i then i else maxX b)
            (if j <? minY b then j else minY b)
            (if maxY b <? j then j else maxY b)
  else b.

Definition bbox_row (b : bbox_acc) (il : Z * list bool) : bbox_acc :=
  fold_left (fun acc (jv : Z * bool) => bbox_pixel (fst il) (fst jv) (snd jv) acc)
            (enumerate (snd il)) b.

Definition bounding_box (obj : mask) : list Z :=
  let b := fold_left bbox_row (enumerate obj)
                     (mk_bbox (len obj) 0 (len obj) 0) in
  [minX b; maxX b; minY b; maxY b].

(** The state [(o, x_max, y_max)] of the corner search. *)
Definition corner_update (x y : Z) (bb : list Z) (st : Z * Z * Z) (xy : Z * Z)
  : Z * Z * Z :=
  let '(o, x_max, y_max) := st in
  let cx := nth (Z.to_nat (fst xy)) bb 0 in
  let cy := nth (Z.to_nat (snd xy + 2)) bb 0 in
  if o <? manhattan x y cx cy then (manhattan x y cx cy, cx, cy) else st.

Definition corner_indices : list (Z * Z) :=
  flat_map (fun x1 => map (fun y1 => (x1, y1)) (range 2)) (range 2).

Definition farthest_corner (x y : Z) (bbs : list (list Z)) : Z * Z * Z :=
  fold_left (fun st bb => fold_left (corner_update x y bb) corner_indices st)
            bbs (0, 0, 0).

Definition radial_line_model_radius (objects : list mask) (x y : Z) : Z :=
  let bounding_boxes := map bounding_box objects in
  let '(_, x_max, y_max) := farthest_corner x y bounding_boxes in
  int_dist (x, y) (x_max, y_max).

(** [point_overlap] *)
Definition point_overlap (pt : point) (obj : mask) : result bool :=
  if (0 <=? fst pt) && (fst pt <? len obj) then
    let? row0 := py_get obj 0 in
    if (0 <=? snd pt) && (snd pt <? len row0) then obj_get obj (fst pt) (snd pt)
    else Ok false
  else Ok false.

Definition count_true (l : list bool) : Z := len (filter (fun b => b) l).

(** [len([p for p in line if point_overlap(p, obj)]) / length] *)
Definition rlm_entry (line : list point) (obj : mask) : result Q :=
  let? hits := mapM (fun p => point_overlap p obj) line in
  if len line =? 0 then Err ZeroDivisionError
  else Ok (inject_Z (count_true hits) / inject_Z (len line))%Q.

Definition radial_line_model (lines : list (list point)) (objects : list mask)
  : result (list Q * list Q) :=
  let? rows :=
    mapM (fun line =>
            let? o0 := py_get objects 0 in
            let? a := rlm_entry line o0 in
            let? o1 := py_get objects 1 in
            let? b := rlm_entry line o1 in
            Ok (a, b)) lines in
  Ok (map fst rows, map snd rows).

(** The labels of [forces]: ["A"], ["B"] and ["_"]. *)
Inductive label : Type := LA | LB | L_.

Definition label_eqb (a b : label) : bool :=
  match a, b with
  | LA, LA | LB, LB | L_, L_ => true
  | _, _ => false
  end.

(** The label of one point: [objects[1]] is tested first.  Each of the two
    conditions of the source is the body of [point_overlap]. *)
Definition travel_label (objects : list mask) (pt : point) : result label :=
  let? o1 := py_get objects 1 in
  let? inA := point_overlap pt o1 in
  if inA then Ok LA
  else
    let? o0 := py_get objects 0 in
    let? inB := point_overlap pt o0 in
    if inB then Ok LB else Ok L_.

(** ** Floating-point operations and the line rasterizer

    The float arithmetic of Python ([math.pi], [math.cos], [math.sin],
    [math.log], [round], [int]) and the rasterizer [pybresenham.line] are
    not code of the repository: the embedding takes them as parameters.
    [flog] receives the exact quotient of the two integers whose true
    division the source passes to [math.log].

    [fdiv] is the division of two floats, which raises [ZeroDivisionError]
    on a zero divisor, and [ftrunc] is [int()] on a float, which raises
    [OverflowError] on an infinity and [ValueError] on a NaN.  The other
    operations are total: the integers converted to floats are pixel
    coordinates, distances and sample indices, and [round], [math.cos] and
    [math.sin] are applied to the finite values built from them. *)
Record float_ops : Type := {
  F : Type;
  f_of_int : Z -> F;
  fadd : F -> F -> F;
  fmul : F -> F -> F;
  fdiv : F -> F -> result F;
  fcos : F -> F;
  fsin : F -> F;
  flog : Q -> F;
  fpi : F;
  fround : F -> Z;
  ftrunc : F -> result Z
}.

(** A force value: Python keeps an [int] until a float is added to it. *)
Inductive number (fl : float_ops) : Type :=
| Int (z : Z)
| Flt (f : F fl).

Arguments Int {fl} z.
Arguments Flt {fl} f.

Section Pipeline.

Variable fl : float_ops.
Variable bline : Z -> Z -> Z -> Z -> list point.

Definition num_add (a b : number fl) : number fl :=
  match a, b with
  | Int x, Int y => Int (x + y)
  | Int x, Flt g => Flt (fadd fl (f_of_int fl x) g)
  | Flt f, Int y => Flt (fadd fl f (f_of_int fl y))
  | Flt f, Flt g => Flt (fadd fl f g)
  end.

(** [int(math.pi * 2 / step)], with the errors of the division and of
    [int()]. *)
Definition n_samples (step : F fl) : result Z :=
  let? quotient := fdiv fl (fmul fl (fpi fl) (f_of_int fl 2)) step in
  ftrunc fl quotient.





(** The amount one (A, B) pair adds to the force of its diameter. *)
Definition contribution (force_type : Z) (a b : point) : result (number fl) :=
  let dist := int_dist a b in
  if force_type =? 0 then Ok (Int dist)
  else if dist * (dist + 2) =? 0 then Err ZeroDivisionError
  else Ok (Flt (flog fl (inject_Z ((dist + 1) ^ 2) / inject_Z (dist * (dist + 2)))%Q)).

(** [for r in range(p, len(fline))].  The indices come from ranges over
    the length of the line, and a line and its labels have the same
    length, so [fline[r]] and [diameters[i][r]] are read with [nth]. *)
Fixpoint force_inner (force_type : Z) (diam : list point) (fline : list label)
  (p : nat) (rs : list nat) (force : number fl) : result (number fl) :=
  match rs with
  | [] => Ok force
  | r :: rs' =>
      if label_eqb (nth r fline L_) LB then
        let? c := contribution force_type (nth p diam (0, 0)) (nth r diam (0, 0)) in
        force_inner force_type diam fline p rs' (num_add force c)
      else force_inner force_type diam fline p rs' force
  end.

(** [for p in range(len(fline))] *)
Fixpoint force_outer (force_type : Z) (diam : list point) (fline : list label)
  (ps : list nat) (force : number fl) : result (number fl) :=
  match ps with
  | [] => Ok force
  | p :: ps' =>
      if label_eqb (nth p fline L_) LA then
        let? f := force_inner force_type diam fline p
                    (seq p (length fline - p)) force in
        force_outer force_type diam fline ps' f
      else force_outer force_type diam fline ps' force
  end.

Definition line_force (force_type : Z) (diam : list point) (fline : list label)
  : result (number fl) :=
  if existsb (label_eqb LA) fline && existsb (label_eqb LB) fline then
    force_outer force_type diam fline (seq 0 (length fline)) (Int 0)
  else Ok (Int 0).

Definition forces (objects : list mask) (diameters : list (list point))
  (force_type : Z) : result (list (number fl)) :=
  let? travels := mapM (mapM (travel_label objects)) diameters in
  mapM (fun df => line_force force_type (fst df) (snd df))
       (combine diameters travels).


End Pipeline.

Arguments num_add {fl} a b.

(** ** The specification's notions *)

(** The pixels of a mask that are true. *)
Definition true_pixels (obj : mask) : list point :=
  flat_map (fun xr : Z * list bool =>
              flat_map (fun yv : Z * bool =>
                          if snd yv then [(fst xr, fst yv)] else [])
                       (enumerate (snd xr)))
           (enumerate obj).

Definition has_true_pixel (obj : mask) : Prop :=
  exists x y, mask_at obj x y = true.

Definition no_true_pixel (obj : mask) : Prop :=
  forall row, In row obj -> forall v, In v row -> v = false.

Definition list_min (d : Z) (l : list Z) : Z :=
  match l with
  | [] => d
  | a :: l' => fold_left Z.min l' a
  end.

Definition list_max (d : Z) (l : list Z) : Z :=
  match l with
  | [] => d
  | a :: l' => fold_left Z.max l' a
  end.

(** The four corners of the axis-aligned bounding box of the true pixels. *)
Definition bbox_corners (obj : mask) : list point :=
  let xs := map fst (true_pixels obj) in
  let ys := map snd (true_pixels obj) in
  [ (list_min 0 xs, list_min 0 ys); (list_min 0 xs, list_max 0 ys);
    (list_max 0 xs, list_min 0 ys); (list_max 0 xs, list_max 0 ys) ].

(** The radius as the specification words it: the truncation of the
    largest Euclidean distance from the centre to one of the eight corners,
    which is the integer square root of the largest squared distance. *)
Definition radius_spec (a b : mask) (x y : Z) : Z :=
  Z.sqrt (list_max 0 (map (sq_dist (x, y)) (bbox_corners a ++ bbox_corners b))).

(** The contour predicate as the specification words it, on a mask of
    [len obj] rows and [width_of obj] columns. *)
Definition on_border (obj : mask) (x y : Z) : bool :=
  (x =? 0) || (y =? 0) || (x =? len obj - 1) || (y =? width_of obj - 1).

Definition is_contour_spec (obj : mask) (x y : Z) : bool :=
  mask_at obj x y
  && (on_border obj x y
      || negb (mask_at obj (x - 1) y) || negb (mask_at obj (x + 1) y)
      || negb (mask_at obj x (y - 1)) || negb (mask_at obj x (y + 1))).

(** A point falls inside a mask when it is within the grid and the mask is
    true there. *)
Definition inside (obj : mask) (p : point) : bool := mask_at obj (fst p) (snd p).

(** The occupancy of a line: points inside the mask over points on the
    line. *)
Definition occupancy (obj : mask) (line : list point) : Q :=
  (inject_Z (len (filter (inside obj) line)) / inject_Z (len line))%Q.

(** The ordered pairs of positions (p_A < p_B) on a labelled diameter with
    label A at the first and label B at the second. *)
Definition ab_pairs (fline : list label) : list (nat * nat) :=
  filter (fun pr => (fst pr <? snd pr)%nat
                    && label_eqb (nth (fst pr) fline L_) LA
                    && label_eqb (nth (snd pr) fline L_) LB)
         (list_prod (seq 0 (length fline)) (seq 0 (length fline))).

(** The sum of the truncated distances over those pairs. *)
Definition pair_sum_trunc (diam : list point) (fline : list label) : Z :=
  fold_right Z.add 0
    (map (fun pr => int_dist (nth (fst pr) diam (0, 0)) (nth (snd pr) diam (0, 0)))
         (ab_pairs fline)).

(** The sum of the raw distances over those pairs. *)
Definition pair_sum_raw (diam : list point) (fline : list label) : R :=
  fold_right Rplus 0%R
    (map (fun pr => sqrt (IZR (sq_dist (nth (fst pr) diam (0, 0))
                                       (nth (snd pr) diam (0, 0)))))
         (ab_pairs fline)).

Definition sumZ (l : list Z) : Z := fold_right Z.add 0 l.

(** The truncated distances one position [p] contributes: to the positions
    of [rs] labelled B. *)
Definition inner_sum (diam : list point) (fline : list label) (p : nat)
  (rs : list nat) : Z :=
  sumZ (map (fun r => int_dist (nth p diam (0, 0)) (nth r diam (0, 0)))
            (filter (fun r => label_eqb (nth r fline L_) LB) rs)).

(** The label of a point as the specification words it: A when the point
    overlaps the mask tested first, B when it overlaps the other one only,
    background otherwise. *)
Definition label_spec (first second : mask) (pt : point) : label :=
  if inside first pt then LA else if inside second pt then LB else L_.

(** ** Concrete inputs *)

Definition full_mask (w h : nat) : mask := repeat (repeat true h) w.

Definition empty_mask (w h : nat) : mask := repeat (repeat false h) w.

(** A [w] by [h] mask whose only true pixel is (x, y). *)
Definition dot_mask (w h : nat) (x y : nat) : mask :=
  map (fun i => map (fun j => Nat.eqb i x && Nat.eqb j y) (seq 0 h)) (seq 0 w).

(** An L-shaped object in a 3 by 3 grid. *)
Definition l_mask : mask :=
  [ [true; true; true]; [true; true; false]; [false; false; false] ].

(** Rational stand-ins for the float operations, to run the pipeline on
    concrete inputs: truncated series for [cos], [sin] and [log], 355/113
    for pi.  The general statements below quantify over every
    [float_ops]. *)
Fixpoint q_series (n : nat) (term : Q) (a2 : Q) (k : Z) : Q :=
  match n with
  | O => 0%Q
  | S n' =>
      Qred (term + q_series n' (Qred (- term * a2 / inject_Z ((k + 1) * (k + 2)))) a2 (k + 2))
  end.

Definition q_cos (a : Q) : Q := q_series 12 1%Q (a * a)%Q 0.
Definition q_sin (a : Q) : Q := q_series 12 a (a * a)%Q 1.
Definition q_log (a : Q) : Q := ((a - 1) - (a - 1) * (a - 1) / 2)%Q.

(** [round]: to the nearest integer, ties to the even one. *)
Definition q_round (q : Q) : Z :=
  let f := Qfloor (q + (1 # 2))%Q in
  if Qeq_bool (inject_Z f) (q + (1 # 2))%Q && Z.odd f then f - 1 else f.

Definition q_ops : float_ops :=
  {| F := Q;
     f_of_int := inject_Z;
     fadd := Qplus;
     fmul := Qmult;
     fdiv := fun a b =>
               if Qeq_bool b 0 then Err ZeroDivisionError else Ok (a / b)%Q;
     fcos := q_cos;
     fsin := q_sin;
     flog := q_log;
     fpi := (355 # 113)%Q;
     fround := q_round;
     ftrunc := fun q => Ok (Z.quot (Qnum q) (Z.pos (Qden q))) |}.

(** A digital line by interpolation between the end points, both
    included; a single point when they coincide. *)
Definition dda_line (x1 y1 x2 y2 : Z) : list point :=
  let n := Z.max (Z.abs (x2 - x1)) (Z.abs (y2 - y1)) in
  if n =? 0 then [(x1, y1)]
  else map (fun k => (x1 + (2 * k * (x2 - x1) + n) / (2 * n),
                      y1 + (2 * k * (y2 - y1) + n) / (2 * n)))
           (range (n + 1)).

(** ** Binary64 arithmetic

    The float operations of Python on the kernel's primitive floats, which
    are IEEE 754 binary64 with rounding to nearest, ties to even.  The
    arithmetic ([+], [*], [/], [int()], [round()], the conversion of an
    integer, [math.pi]) is exact to Python's; [math.cos], [math.sin] and
    [math.log], which binary64 arithmetic does not provide, are truncated
    series computed in it. *)

Section Binary64.

Import PrimFloat FloatOps SpecFloat.

(** [math.pi] *)
Definition b64_pi : float := 0x1.921fb54442d18p+1%float.

(** The float nearest to an integer. *)
Definition b64_of_int (z : Z) : float :=
  SF2Prim (binary_normalize prec emax z 0 false).

(** [a / b] on floats: an error on a zero divisor of either sign, an
    infinity (and no error) when the quotient overflows. *)
Definition b64_div (a b : float) : result float :=
  if PrimFloat.eqb b 0%float then Err ZeroDivisionError
  else Ok (PrimFloat.div a b).

(** [int(f)]: the value of [f] truncated towards zero. *)
Definition b64_int (f : float) : result Z :=
  match Prim2SF f with
  | S754_zero _ => Ok 0
  | S754_infinity _ => Err OverflowError
  | S754_nan => Err ValueError
  | S754_finite s m e =>
      let magnitude := if 0 <=? e then Z.shiftl (Z.pos m) e
                       else Z.shiftr (Z.pos m) (- e) in
      Ok (if s then - magnitude else magnitude)
  end.

(** [round(f)] for a finite [f]: the nearest integer, ties to the even
    one. *)
Definition b64_round (f : float) : Z :=
  match Prim2SF f with
  | S754_finite s m e =>
      let magnitude :=
        if 0 <=? e then Z.shiftl (Z.pos m) e
        else
          let unit := Z.shiftl 1 (- e) in
          let q := Z.pos m / unit in
          let r := Z.pos m mod unit in
          if 2 * r <? unit then q
          else if unit <? 2 * r then q + 1
          else if Z.even q then q else q + 1 in
      if s then - magnitude else magnitude
  | _ => 0
  end.

(** The exact value of a finite float, as a rational. *)
Definition b64_exact (f : float) : Q :=
  match Prim2SF f with
  | S754_finite s m e =>
      let magnitude := if 0 <=? e then inject_Z (Z.shiftl (Z.pos m) e)
                       else (Z.pos m # Pos.shiftl 1 (Z.to_N (- e))) in
      if s then (- magnitude)%Q else magnitude
  | _ => 0%Q
  end.

Fixpoint b64_series (n : nat) (term a2 : float) (k : Z) : float :=
  match n with
  | O => 0%float
  | S n' =>
      PrimFloat.add term
        (b64_series n'
           (PrimFloat.div (PrimFloat.opp (PrimFloat.mul term a2))
                          (b64_of_int ((k + 1) * (k + 2))))
           a2 (k + 2))
  end.

Definition b64_cos (a : float) : float :=
  b64_series 20 1%float (PrimFloat.mul a a) 0.

Definition b64_sin (a : float) : float :=
  b64_series 20 a (PrimFloat.mul a a) 1.

Definition b64_log (q : Q) : float :=
  let a := PrimFloat.sub (PrimFloat.div (b64_of_int (Qnum q))
                                        (b64_of_int (Z.pos (Qden q))))
                         1%float in
  PrimFloat.sub a (PrimFloat.div (PrimFloat.mul a a) 2%float).

Definition b64_ops : float_ops :=
  {| F := float;
     f_of_int := b64_of_int;
     fadd := PrimFloat.add;
     fmul := PrimFloat.mul;
     fdiv := b64_div;
     fcos := b64_cos;
     fsin := b64_sin;
     flog := b64_log;
     fpi := b64_pi;
     fround := b64_round;
     ftrunc := b64_int |}.


(** A step in radians as [image_processing] computes it from degrees:
    [step * math.pi / 180]. *)
Definition b64_radians (degrees : float) : float :=
  PrimFloat.div (PrimFloat.mul degrees b64_pi) 180%float.

Definition b64_tenth_degree : float := b64_radians 0x1.999999999999ap-4%float.

End Binary64.

(** ** The remaining functions of convex_hull.py *)

Definition point_eqb (p q : point) : bool :=
  (fst p =? fst q) && (snd p =? snd q).

(** [pt in obj_list] *)
Definition py_in (pt : point) (obj_list : list point) : bool :=
  existsb (point_eqb pt) obj_list.

(** The list [matrix] of [connected8_check]. *)
Definition matrix (x y : Z) : list point :=
  [ (x + 1, y + 1); (x + 1, y); (x + 1, y - 1); (x, y - 1); (x, y);
    (x, y - 1); (x - 1, y + 1); (x - 1, y); (x - 1, y - 1) ].

Definition connected8_check (x y : Z) (obj_list : list point) : bool :=
  existsb (fun pt => py_in pt obj_list) (matrix x y).

(** [get_closest_convex_hull_points] starts with [min1 = 0] and [min2 = 0],
    two integers, and stores points in them later. *)
Inductive closest : Type :=
| IntZero
| Pt (p : point).

Definition closest_step (p1 : point) (st : Z * closest * closest) (p2 : point)
  : Z * closest * closest :=
  let '(dist, min1, min2) := st in
  if manhattan (fst p1) (snd p1) (fst p2) (snd p2) <? dist
  then (manhattan (fst p1) (snd p1) (fst p2) (snd p2), Pt p1, Pt p2)
  else st.

Definition closest_scan (points1 points2 : list point) : Z * closest * closest :=
  fold_left (fun st p1 => fold_left (closest_step p1) points2 st)
            points1 (9999, IntZero, IntZero).

Definition get_closest_convex_hull_points (points1 points2 : list point)
  : closest * closest :=
  let '(_, min1, min2) := closest_scan points1 points2 in (min1, min2).

(** ** The remaining functions of image.py *)

(** The annotation objects read by [bbox_value] are JSON objects; the only
    key the function reads is ["bbox"], a list of integers. *)
Record annotation_object : Type := { bbox : list Z }.

Definition bbox_value (obj : annotation_object) (x y : Z) : result bool :=
  let? x_min := py_get (bbox obj) 0 in
  let? x_max := py_get (bbox obj) 1 in
  let? y_min := py_get (bbox obj) 2 in
  let? y_max := py_get (bbox obj) 3 in
  Ok ((y_min <=? y) && (y <=? y_max) && ((x_min <=? x) && (x <=? x_max))).

(** The mask [[[bbox_value(obj, x, y) for y in range(size_x)]
    for x in range(size_y)]] of [SpatialSense_learning]. *)
Definition bbox_image (obj : annotation_object) (size_x size_y : Z) : result mask :=
  mapM (fun x => mapM (fun y => bbox_value obj x y) (range size_x)) (range size_y).

Section Linking.

Variable bline : Z -> Z -> Z -> Z -> list point.

(** [compute_polygon] *)
Definition compute_polygon (min_pix : point) (ch : list point)
  : result (list point) :=
  let? c0 := py_get ch 0 in
  let points := bline (fst min_pix) (snd min_pix) (fst c0) (snd c0) in
  let edges :=
    flat_map (fun i =>
                let x1 := nth i ch (0, 0) in
                let x2 := nth (S i) ch (0, 0) in
                bline (fst x1) (snd x1) (fst x2) (snd x2))
             (seq 0 (length ch - 1)) in
  let? cl := py_get ch (-1) in
  Ok (points ++ edges ++ bline (fst cl) (snd cl) (fst min_pix) (snd min_pix)).

(** The polygon of [center_point]: every edge of the hull sequence, the
    last one closing on the first ([(p + 1) % size_c_hull]). *)
Definition hull_points (c_hull : list point) : list point :=
  flat_map (fun p =>
              let a := nth p c_hull (0, 0) in
              let b := nth (Nat.modulo (p + 1) (length c_hull)) c_hull (0, 0) in
              bline (fst a) (snd a) (fst b) (snd b))
           (seq 0 (length c_hull)).

(** The first loop of [center_point]; [None] only if a hull computation
    ran out of fuel. *)
Fixpoint hulls_of (objects : list mask) : option (result (list (list point))) :=
  match objects with
  | [] => Some (Ok [])
  | obj :: objects' =>
      match convex_hull obj with
      | None => None
      | Some (Err e) => Some (Err e)
      | Some (Ok (_, c_hull)) =>
          match hulls_of objects' with
          | None => None
          | Some r => Some (let? hulls := r in Ok (hull_points c_hull :: hulls))
          end
      end
  end.

(** The state of the second loop: [it1], [it2], [fp1], [fp2]. *)
Definition touch_state : Type := (bool * bool * option point * option point)%type.

(** The loop over [lin], with its [break]. *)
Fixpoint touch_loop (hulls : list (list point)) (lin : list point)
  (st : touch_state) : result (option point * option point) :=
  match lin with
  | [] => let '(_, _, fp1, fp2) := st in Ok (fp1, fp2)
  | pt :: lin' =>
      let '(it1, it2, fp1, fp2) := st in
      let? h0 := py_get hulls 0 in
      let '(it1, fp1) :=
        if connected8_check (fst pt) (snd pt) h0 && negb it1
        then (true, Some pt) else (it1, fp1) in
      let? h1 := py_get hulls 1 in
      let '(it2, fp2) :=
        if connected8_check (fst pt) (snd pt) h1 && negb it2
        then (true, Some pt) else (it2, fp2) in
      if it1 && it2 then Ok (fp1, fp2)
      else touch_loop hulls lin' (it1, it2, fp1, fp2)
  end.

(** [fp if fp is not None else pt] *)
Definition or_barycentre (fp : option point) (pt : point) : point :=
  match fp with
  | Some p => p
  | None => pt
  end.

(** [int((a + b) / 2)] on both coordinates. *)
Definition midpoint (p q : point) : point :=
  (Z.quot (fst p + fst q) 2, Z.quot (snd p + snd q) 2).

Definition center_point (objects : list mask) : option (result point) :=
  match hulls_of objects with
  | None => None
  | Some r =>
      Some (let? hulls := r in
            let? o0 := py_get objects 0 in
            let? pt1 := barycentre o0 in
            let? o1 := py_get objects 1 in
            let? pt2 := barycentre o1 in
            let lin := bline (fst pt1) (snd pt1) (fst pt2) (snd pt2) in
            let? fps := touch_loop hulls lin (false, false, None, None) in
            Ok (midpoint (or_barycentre (fst fps) pt1)
                         (or_barycentre (snd fps) pt2)))
  end.

End Linking.

(** ** Notions used to state the properties *)

(** Lexicographic order on points: x first, then y. *)
Definition lex_le (p q : point) : Prop :=
  fst p < fst q \/ (fst p = fst q /\ snd p <= snd q).

(** The power test of the pruning pass holds at every interior position of
    a sequence. *)
Definition locally_convex (ch : list point) : Prop :=
  forall j : nat, (1 <= j)%nat -> (j + 1 < length ch)%nat ->
    0 <= compute_power (nth (j - 1) ch (0, 0)) (nth (j + 1) ch (0, 0))
                       (nth j ch (0, 0)).

(** [l1] is [l2] with some elements removed, the order kept. *)
Inductive subseq {A : Type} : list A -> list A -> Prop :=
| subseq_nil : subseq [] []
| subseq_skip : forall a l1 l2, subseq l1 l2 -> subseq l1 (a :: l2)
| subseq_keep : forall a l1 l2, subseq l1 l2 -> subseq (a :: l1) (a :: l2).

(** The first point of a line that touches a point set, in the sense of
    [connected8_check]. *)
Definition first_touch (hull lin : list point) : option point :=
  find (fun pt => connected8_check (fst pt) (snd pt) hull) lin.

(** A rasterizer that starts on its first end point and ends on its
    second. *)
Definition joins_end_points (bline : Z -> Z -> Z -> Z -> list point) : Prop :=
  forall x1 y1 x2 y2,
    In (x1, y1) (bline x1 y1 x2 y2) /\ In (x2, y2) (bline x1 y1 x2 y2).

(** The order of the slope sort. *)
Definition key_le (key : point -> Q) (a b : point) : Prop := (key a <= key b)%Q.

(** The power test holds at the positions the cursor has passed. *)
Definition passed (ch : list point) (i : Z) : Prop :=
  forall j : nat, (1 <= j)%nat -> Z.of_nat j < i -> (j + 1 < length ch)%nat ->
    0 <= compute_power (nth (j - 1) ch (0, 0)) (nth (j + 1) ch (0, 0))
                       (nth j ch (0, 0)).

(** The Manhattan distance of two points. *)
Definition pair_dist (p1 p2 : point) : Z :=
  manhattan (fst p1) (snd p1) (fst p2) (snd p2).

(** What the scan has established when its state is [st], over the pairs
    of [seen]. *)
Definition scan_state_ok (seen : list (point * point)) (st : Z * closest * closest)
  : Prop :=
  let '(dist, min1, min2) := st in
  (forall p1 p2, In (p1, p2) seen -> dist <= pair_dist p1 p2)
  /\ ((dist = 9999 /\ min1 = IntZero /\ min2 = IntZero)
      \/ (exists p1 p2, In (p1, p2) seen /\ min1 = Pt p1 /\ min2 = Pt p2
                        /\ dist = pair_dist p1 p2 /\ dist < 9999)).

(** The box [b] contains the pixel (x, y). *)
Definition covers (b : bbox_acc) (x y : Z) : Prop :=
  minX b <= x <= maxX b /\ minY b <= y <= maxY b.

(** The corner of the box [bb] that [corner_update] reads for the index
    pair [xy]. *)
Definition corner_of (bb : list Z) (xy : Z * Z) : point :=
  (nth (Z.to_nat (fst xy)) bb 0, nth (Z.to_nat (snd xy + 2)) bb 0).

(** The state of the corner search is its start, or a corner with its
    Manhattan distance. *)
Definition search_state_ok (x y : Z) (st : Z * Z * Z) : Prop :=
  let '(o, x_max, y_max) := st in
  (o = 0 /\ x_max = 0 /\ y_max = 0)
  \/ (0 < o /\ o = manhattan x y x_max y_max).

Definition reaches (c : point) (x y : Z) (st : Z * Z * Z) : Prop :=
  manhattan x y (fst c) (snd c) <= fst (fst st).

(** * Properties *)

(** ** Python lists *)

Lemma len_nonneg {A : Type} (l : list A) : 0 <= len l.
Proof. unfold len. lia. Qed.

Lemma norm_index_lt {A : Type} (l : list A) (i : Z) (n : nat) :
  norm_index l i = Some n -> (n < length l)%nat.
Proof.
  unfold norm_index, len.
  destruct ((0 <=? i) && (i <? Z.of_nat (length l))) eqn:E1.
  - intros H. inversion H. subst. apply andb_prop in E1. lia.
  - destruct ((i <? 0) && (- Z.of_nat (length l) <=? i)) eqn:E2; [|discriminate].
    intros H. inversion H. subst. apply andb_prop in E2. lia.
Qed.

Lemma norm_index_range {A : Type} (l : list A) (i : Z) (n : nat) :
  norm_index l i = Some n -> - len l <= i < len l.
Proof.
  unfold norm_index.
  destruct ((0 <=? i) && (i <? len l)) eqn:E1.
  - intros _. apply andb_prop in E1. lia.
  - destruct ((i <? 0) && (- len l <=? i)) eqn:E2; [|discriminate].
    intros _. apply andb_prop in E2. lia.
Qed.

Lemma norm_index_nonneg {A : Type} (l : list A) (i : Z) :
  0 <= i < len l -> norm_index l i = Some (Z.to_nat i).
Proof.
  intros H. unfold norm_index.
  replace ((0 <=? i) && (i <? len l)) with true; [reflexivity|].
  symmetry. apply andb_true_intro. lia.
Qed.

Lemma py_get_nonneg {A : Type} (l : list A) (i : Z) (d : A) :
  0 <= i < len l -> py_get l i = Ok (nth (Z.to_nat i) l d).
Proof.
  intros H. unfold py_get. rewrite norm_index_nonneg by exact H.
  assert (Hn : (Z.to_nat i < length l)%nat) by (unfold len in H; lia).
  destruct (nth_error l (Z.to_nat i)) eqn:E.
  - f_equal. symmetry. apply nth_error_nth. exact E.
  - apply nth_error_None in E. lia.
Qed.

Lemma py_get_range {A : Type} (l : list A) (i : Z) (a : A) :
  py_get l i = Ok a -> - len l <= i < len l.
Proof.
  unfold py_get. destruct (norm_index l i) eqn:E; [|discriminate].
  intros _. eapply norm_index_range. exact E.
Qed.

Lemma remove_nth_length {A : Type} (n : nat) (l : list A) :
  (n < length l)%nat -> length (remove_nth n l) = (length l - 1)%nat.
Proof.
  revert l. induction n as [|n IH]; intros [|a l] H; simpl in *; try lia.
  rewrite IH by lia. lia.
Qed.

Lemma py_pop_len {A : Type} (l l' : list A) (i : Z) :
  py_pop l i = Ok l' -> len l' = len l - 1.
Proof.
  unfold py_pop. destruct (norm_index l i) eqn:E; [|discriminate].
  intros H. inversion H. subst. apply norm_index_lt in E.
  unfold len. rewrite remove_nth_length by exact E. lia.
Qed.

Lemma range_length (n : Z) : length (range n) = Z.to_nat n.
Proof. unfold range. rewrite length_map, length_seq. reflexivity. Qed.

Lemma mapM_length {A B : Type} (f : A -> result B) (l : list A) (r : list B) :
  mapM f l = Ok r -> length r = length l.
Proof.
  revert r. induction l as [|a l IH]; simpl; intros r H.
  - inversion H. reflexivity.
  - destruct (f a); [|discriminate]. simpl in H.
    destruct (mapM f l); [|discriminate]. simpl in H.
    inversion H. simpl. f_equal. apply IH. reflexivity.
Qed.

Lemma mapM_pure {A B : Type} (f : A -> result B) (g : A -> B) (l : list A) :
  (forall a, In a l -> f a = Ok (g a)) -> mapM f l = Ok (map g l).
Proof.
  induction l as [|a l IH]; simpl; intros H; [reflexivity|].
  rewrite (H a) by (left; reflexivity). simpl.
  rewrite IH by (intros; apply H; right; assumption). reflexivity.
Qed.

(** ** The pruning pass terminates *)

Lemma prune_step_measure (ch ch' : list point) (i i' : Z) :
  prune_step ch i = Some (Ok (ch', i')) ->
  i < len ch - 1 /\ 2 * len ch' - i' = 2 * len ch - i - 1.
Proof.
  unfold prune_step. destruct (i <? len ch - 1) eqn:E; [|discriminate].
  apply Z.ltb_lt in E. intros H. split; [exact E|].
  inversion H as [H1]. clear H.
  destruct (py_get ch (i - 1)) as [a|]; [|discriminate]. simpl in H1.
  destruct (py_get ch (i + 1)) as [c|]; [|discriminate]. simpl in H1.
  destruct (py_get ch i) as [b|]; [|discriminate]. simpl in H1.
  destruct (0 <=? compute_power a c b).
  - inversion H1. subst. lia.
  - destruct (py_pop ch i) as [l|] eqn:P; [|discriminate]. simpl in H1.
    inversion H1. subst. apply py_pop_len in P. lia.
Qed.

Lemma prune_loop_total (fuel : nat) :
  forall (ch : list point) (i : Z) (t : list (Z * Z)),
    2 * len ch - i - 1 <= Z.of_nat fuel ->
    prune_loop fuel ch i t <> None.
Proof.
  induction fuel as [|fuel IH]; intros ch i t Hm.
  - simpl. destruct (prune_step ch i) as [[[ch' i']|e]|] eqn:E; try discriminate.
    apply prune_step_measure in E. pose proof (len_nonneg ch). lia.
  - simpl. destruct (prune_step ch i) as [[[ch' i']|e]|] eqn:E; try discriminate.
    apply prune_step_measure in E. apply IH. lia.
Qed.

(** The while loop of [convex_hull] always ends: the model never runs out
    of fuel. *)
Lemma prune_total (ch : list point) : prune ch <> None.
Proof.
  unfold prune, prune_fuel. apply prune_loop_total. unfold len. lia.
Qed.

(** X26.  The pruning loop of [convex_hull] terminates on every mask: a
    run of at most [2 * len(contour)] turns reaches the end of the loop or
    an [IndexError], since each turn lowers [2 * len(ch) - i] by one. *)
Lemma convex_hull_total (obj : mask) : convex_hull obj <> None.
Proof.
  unfold convex_hull. destruct (object_contour obj) as [c|e]; [|discriminate].
  unfold convex_hull_of_contour.
  destruct (prune (sortby_slope (get_corner_pixel c) c)) as [[r t]|] eqn:E.
  - discriminate.
  - exfalso. eapply prune_total. exact E.
Qed.

(** ** The radius of the radial line model *)

(** C1.  The radius is the truncated Euclidean distance to the corner that
    is farthest from the centre in the Manhattan metric, which need not be
    the farthest in the Euclidean metric.  With the centre at (0, 0), one
    mask whose only pixel is (3, 0) and one whose only pixel is (2, 2),
    [radial_line_model_radius] selects (2, 2) (Manhattan distance 4 against
    3) and returns 2, while the largest Euclidean distance to a bounding-box
    corner is 3: the radius does not reach the pixel (3, 0). *)
Theorem radius_picks_manhattan_farthest :
  has_true_pixel (dot_mask 4 4 3 0) /\
  has_true_pixel (dot_mask 4 4 2 2) /\
  manhattan 0 0 3 0 = 3 /\ manhattan 0 0 2 2 = 4 /\
  radial_line_model_radius [dot_mask 4 4 3 0; dot_mask 4 4 2 2] 0 0 = 2 /\
  radius_spec (dot_mask 4 4 3 0) (dot_mask 4 4 2 2) 0 0 = 3 /\
  int_dist (0, 0) (3, 0) = 3.
Proof.
  split; [exists 3, 0; reflexivity|].
  split; [exists 2, 2; reflexivity|].
  repeat split; vm_compute; reflexivity.
Qed.

(** ** The pruning pass *)

(** C2.  On the L-shaped mask the cursor of the pruning pass leaves index 1:
    power tests are evaluated at cursors 1, 0 and -1 (on lists of length 5,
    4 and 3), each removing a point, and at cursor -2 the read of
    [ch[i - 1]] on the two remaining points raises [IndexError]. *)
Theorem pruning_cursor_goes_below_one :
  object_contour l_mask = Ok [(0, 0); (0, 1); (0, 2); (1, 0); (1, 1)] /\
  convex_hull_cursors l_mask = [(1, 5); (0, 4); (-1, 3)] /\
  convex_hull l_mask = Some (Err IndexError).
Proof. repeat split; vm_compute; reflexivity. Qed.

(** ** The contour *)

(** C3.  On a mask that is not square the contour differs from the
    boundary predicate.  With 2 rows and 3 columns, all true, the columns
    scanned are [range(len(obj))] = 0, 1, so the border pixels (0, 2) and
    (1, 2) are missing; with 3 rows and 2 columns the pixel (1, 1) of the
    last column is not recognised as border and the read of [obj[1][2]]
    raises [IndexError]. *)
Theorem contour_of_non_square_mask :
  object_contour (full_mask 2 3) = Ok [(0, 0); (0, 1); (1, 0); (1, 1)] /\
  is_contour_spec (full_mask 2 3) 0 2 = true /\
  is_contour_spec (full_mask 2 3) 1 2 = true /\
  object_contour (full_mask 3 2) = Err IndexError.
Proof. repeat split; vm_compute; reflexivity. Qed.

(** C4.  On the 5 by 5 mask that is true everywhere the contour is the 16
    border cells and the pivot is (0, 0), but the pruned sequence has 11
    points: the cells of the row [x = 0] sort among the points of slope 1
    and are all removed, the corner (0, 4) with them, and the aligned
    border cells of the other three sides are kept. *)
Theorem hull_of_full_5x5 :
  object_contour (full_mask 5 5)
  = Ok [(0, 0); (0, 1); (0, 2); (0, 3); (0, 4); (1, 0); (1, 4); (2, 0);
        (2, 4); (3, 0); (3, 4); (4, 0); (4, 1); (4, 2); (4, 3); (4, 4)] /\
  convex_hull (full_mask 5 5)
  = Some (Ok ((0, 0),
              [(1, 0); (2, 0); (3, 0); (4, 0); (4, 1); (4, 2); (4, 3);
               (4, 4); (3, 4); (2, 4); (1, 4)])).
Proof. split; vm_compute; reflexivity. Qed.

(** ** Empty contours and empty masks *)

(** C8, as the claim states it, fails: on a mask that is false everywhere
    the contour is empty and [convex_hull] returns a value, with the pivot
    (9999, 9999), and no error. *)
Lemma empty_contour_no_error :
  object_contour (empty_mask 2 2) = Ok [] /\
  convex_hull (empty_mask 2 2) = Some (Ok ((9999, 9999), [])) /\
  ~ (exists e, convex_hull (empty_mask 2 2) = Some (Err e)).
Proof.
  repeat split; try (vm_compute; reflexivity).
  intros [e H]. vm_compute in H. discriminate.
Qed.

(** C8, amended.  For every mask whose contour is empty, [convex_hull]
    returns the pivot (9999, 9999) with an empty hull sequence and raises no
    error. *)
Theorem convex_hull_empty_contour (obj : mask) :
  object_contour obj = Ok [] ->
  convex_hull obj = Some (Ok ((9999, 9999), [])).
Proof.
  intros H. unfold convex_hull. rewrite H. reflexivity.
Qed.

Lemma convex_hull_empty_contour_witness :
  object_contour (empty_mask 2 2) = Ok [] /\
  convex_hull (empty_mask 2 2) = Some (Ok ((9999, 9999), [])).
Proof.
  split; [vm_compute; reflexivity|].
  apply (convex_hull_empty_contour (empty_mask 2 2)). vm_compute. reflexivity.
Defined.

Lemma flat_map_nil {A B : Type} (f : A -> list B) (l : list A) :
  (forall a, In a l -> f a = []) -> flat_map f l = [].
Proof.
  induction l as [|a l IH]; simpl; intros H; [reflexivity|].
  rewrite (H a) by (left; reflexivity).
  rewrite IH by (intros; apply H; right; assumption). reflexivity.
Qed.

Lemma x_pixels_no_true (obj : mask) : no_true_pixel obj -> x_pixels obj = [].
Proof.
  intros H. unfold x_pixels. apply flat_map_nil. intros [x row] Hin.
  apply in_combine_r in Hin. simpl. apply flat_map_nil. intros [y v] Hv.
  apply in_combine_r in Hv. simpl. rewrite (H row Hin v Hv). reflexivity.
Qed.

(** C9, as the claim states it, fails: on a mask with no true pixel
    [barycentre] raises [ZeroDivisionError], which is not the named
    [DegenerateObjectError]. *)
Lemma barycentre_error_is_zero_division :
  no_true_pixel (empty_mask 2 2) /\
  barycentre (empty_mask 2 2) = Err ZeroDivisionError /\
  barycentre (empty_mask 2 2) <> Err DegenerateObjectError.
Proof.
  split; [|split].
  - intros row Hr v Hv. simpl in Hr.
    destruct Hr as [Hr|[Hr|[]]]; subst row; simpl in Hv;
      destruct Hv as [Hv|[Hv|[]]]; subst v; reflexivity.
  - vm_compute. reflexivity.
  - vm_compute. discriminate.
Qed.

(** C9, amended.  For every mask with zero true pixels, [barycentre] fails
    with [ZeroDivisionError], raised by the division by the pixel count 0;
    it returns no value. *)
Theorem barycentre_no_true_pixel (obj : mask) :
  no_true_pixel obj -> barycentre obj = Err ZeroDivisionError.
Proof.
  intros H. unfold barycentre. rewrite (x_pixels_no_true obj H). reflexivity.
Qed.

Lemma empty_2x2_no_true_pixel : no_true_pixel (empty_mask 2 2).
Proof.
  intros row Hr v Hv. simpl in Hr.
  destruct Hr as [Hr|[Hr|[]]]; subst row; simpl in Hv;
    destruct Hv as [Hv|[Hv|[]]]; subst v; reflexivity.
Defined.

Lemma barycentre_no_true_pixel_witness :
  no_true_pixel (empty_mask 2 2) /\
  barycentre (empty_mask 2 2) = Err ZeroDivisionError.
Proof.
  split; [exact empty_2x2_no_true_pixel|].
  apply (barycentre_no_true_pixel (empty_mask 2 2)).
  exact empty_2x2_no_true_pixel.
Defined.

(** ** The occupancy histograms *)

Lemma rectangular_row (obj : mask) (n : nat) :
  rectangular obj -> (n < length obj)%nat -> len (nth n obj []) = width_of obj.
Proof.
  intros H Hn. unfold rectangular in H. rewrite Forall_forall in H.
  apply H. apply nth_In. exact Hn.
Qed.

Lemma width_of_row0 (obj : mask) : width_of obj = len (nth 0 obj []).
Proof. destruct obj; reflexivity. Qed.

Lemma nth_nil_false (n : nat) : nth n (@nil bool) false = false.
Proof. destruct n; reflexivity. Qed.

(** On a rectangular mask [point_overlap] never raises and decides
    membership, with the points outside the grid outside the mask. *)
Lemma point_overlap_inside (obj : mask) (p : point) :
  rectangular obj -> point_overlap p obj = Ok (inside obj p).
Proof.
  intros Hrect. destruct p as [x y]. unfold point_overlap, inside, mask_at. simpl.
  destruct ((0 <=? x) && (x <? len obj)) eqn:Ex.
  - apply andb_prop in Ex. destruct Ex as [Ex0 Ex1].
    apply Z.leb_le in Ex0. apply Z.ltb_lt in Ex1.
    assert (Hx : (Z.to_nat x < length obj)%nat) by (unfold len in Ex1; lia).
    rewrite (py_get_nonneg obj 0 []) by lia. simpl Z.to_nat. simpl bind.
    rewrite <- width_of_row0.
    replace (0 <=? x) with true by (symmetry; apply Z.leb_le; exact Ex0).
    simpl andb.
    pose proof (rectangular_row obj (Z.to_nat x) Hrect Hx) as Hrow.
    destruct ((0 <=? y) && (y <? width_of obj)) eqn:Ey.
    + apply andb_prop in Ey. destruct Ey as [Ey0 Ey1].
      rewrite Ey0. apply Z.leb_le in Ey0. apply Z.ltb_lt in Ey1.
      unfold obj_get. rewrite (py_get_nonneg obj x []) by lia. simpl bind.
      apply py_get_nonneg. lia.
    + destruct (0 <=? y) eqn:Ey0; [|reflexivity].
      simpl in Ey. apply Z.leb_le in Ey0. apply Z.ltb_ge in Ey.
      rewrite nth_overflow; [reflexivity|]. unfold len in Hrow. lia.
  - destruct (0 <=? x) eqn:Ex0; [|reflexivity].
    simpl in Ex. apply Z.leb_le in Ex0. apply Z.ltb_ge in Ex.
    rewrite (nth_overflow obj) by (unfold len in Ex; lia).
    rewrite nth_nil_false. destruct (0 <=? y); reflexivity.
Qed.

Lemma count_true_map {A : Type} (f : A -> bool) (l : list A) :
  count_true (map f l) = len (filter f l).
Proof.
  unfold count_true, len. f_equal.
  induction l as [|a l IH]; simpl; [reflexivity|].
  destruct (f a); simpl; rewrite IH; reflexivity.
Qed.

Lemma rlm_entry_occupancy (obj : mask) (line : list point) :
  rectangular obj -> line <> [] -> rlm_entry line obj = Ok (occupancy obj line).
Proof.
  intros Hrect Hne. unfold rlm_entry.
  rewrite (mapM_pure _ (inside obj)) by (intros; apply point_overlap_inside; exact Hrect).
  simpl bind. rewrite count_true_map.
  destruct (len line =? 0) eqn:E; [|reflexivity].
  apply Z.eqb_eq in E. destruct line; [contradiction|]. unfold len in E. simpl in E. lia.
Qed.

Lemma occupancy_bounds (obj : mask) (line : list point) :
  line <> [] -> (0 <= occupancy obj line /\ occupancy obj line <= 1)%Q.
Proof.
  intros Hne. unfold occupancy.
  assert (Hpos : (0 < inject_Z (len line))%Q).
  { rewrite <- (Zlt_Qlt 0). destruct line; [contradiction|]. unfold len. simpl. lia. }
  split.
  - apply Qle_shift_div_l; [exact Hpos|]. rewrite Qmult_0_l.
    rewrite <- (Zle_Qle 0). apply len_nonneg.
  - apply Qle_shift_div_r; [exact Hpos|]. rewrite Qmult_1_l.
    rewrite <- Zle_Qle. unfold len. apply inj_le. apply filter_length_le.
Qed.

Lemma radial_line_model_ok (lines : list (list point)) (a b : mask) :
  rectangular a -> rectangular b -> Forall (fun line => line <> []) lines ->
  radial_line_model lines [a; b]
  = Ok (map (occupancy a) lines, map (occupancy b) lines).
Proof.
  intros Ha Hb Hne. unfold radial_line_model. rewrite Forall_forall in Hne.
  rewrite (mapM_pure _ (fun line => (occupancy a line, occupancy b line))).
  - simpl bind. rewrite !map_map. reflexivity.
  - intros line Hin.
    change (py_get [a; b] 0) with (Ok a). change (py_get [a; b] 1) with (Ok b).
    simpl bind. rewrite (rlm_entry_occupancy a) by auto. simpl bind.
    rewrite (rlm_entry_occupancy b) by auto. reflexivity.
Qed.

(** C6.  For every list of non-empty half-lines and every pair of
    (rectangular) masks, [radial_line_model] returns the two histograms
    without error; each value is the number of points of the line inside
    the mask, the points outside the grid counting as outside, divided by
    the length of the line, and lies in the closed interval from 0 to 1. *)
Theorem rlm_values_are_occupancies (lines : list (list point)) (a b : mask) :
  rectangular a -> rectangular b -> Forall (fun line => line <> []) lines ->
  radial_line_model lines [a; b]
  = Ok (map (occupancy a) lines, map (occupancy b) lines)
  /\ Forall (fun v => (0 <= v /\ v <= 1)%Q) (map (occupancy a) lines)
  /\ Forall (fun v => (0 <= v /\ v <= 1)%Q) (map (occupancy b) lines).
Proof.
  intros Ha Hb Hne. split; [apply radial_line_model_ok; assumption|].
  rewrite Forall_forall in Hne.
  split; apply Forall_forall; intros v Hv; apply in_map_iff in Hv;
    destruct Hv as [line [Hv Hin]]; subst v; apply occupancy_bounds; auto.
Qed.

Lemma rlm_values_are_occupancies_witness :
  radial_line_model [[(0, 0); (1, 1); (2, 2)]; [(1, 1); (1, 0); (1, -1)]]
                    [dot_mask 3 3 1 1; full_mask 3 3]
  = Ok ([1 # 3; 1 # 3], [3 # 3; 2 # 3])%Q.
Proof.
  apply (rlm_values_are_occupancies
           [[(0, 0); (1, 1); (2, 2)]; [(1, 1); (1, 0); (1, -1)]]
           (dot_mask 3 3 1 1) (full_mask 3 3)).
  - repeat constructor.
  - repeat constructor.
  - repeat constructor; discriminate.
Defined.

(** ** The force histogram *)

Lemma sumZ_app (l1 l2 : list Z) : sumZ (l1 ++ l2) = sumZ l1 + sumZ l2.
Proof. induction l1 as [|a l1 IH]; simpl; [reflexivity|]. rewrite IH. lia. Qed.

Lemma filter_pair_map {A B : Type} (c : A * B -> bool) (a : A) (l : list B) :
  filter c (map (pair a) l) = map (pair a) (filter (fun r => c (a, r)) l).
Proof.
  induction l as [|b l IH]; simpl; [reflexivity|].
  destruct (c (a, b)); simpl; rewrite IH; reflexivity.
Qed.

(** A sum over the selected pairs of a product, row by row. *)
Lemma sumZ_filter_prod {A B : Type} (g : A * B -> Z) (c : A * B -> bool)
  (l1 : list A) (l2 : list B) :
  sumZ (map g (filter c (list_prod l1 l2)))
  = sumZ (map (fun p => sumZ (map (fun r => g (p, r))
                                  (filter (fun r => c (p, r)) l2))) l1).
Proof.
  induction l1 as [|a l1 IH]; simpl; [reflexivity|].
  rewrite filter_app, map_app, sumZ_app, IH, filter_pair_map, map_map.
  reflexivity.
Qed.

Lemma label_eqb_sym (a b : label) : label_eqb a b = label_eqb b a.
Proof. destruct a, b; reflexivity. Qed.

Lemma label_eqb_eq (a b : label) : label_eqb a b = true <-> a = b.
Proof. destruct a, b; simpl; split; intros H; try reflexivity; discriminate. Qed.

Lemma nth_label_absent (fline : list label) (l : label) (p : nat) :
  l <> L_ -> existsb (label_eqb l) fline = false ->
  label_eqb (nth p fline L_) l = false.
Proof.
  intros Hl. revert p. induction fline as [|a fline IH]; intros p H.
  - destruct p, l; try reflexivity; contradiction.
  - simpl in H. apply orb_false_elim in H. destruct H as [H1 H2].
    destruct p; simpl.
    + rewrite label_eqb_sym. exact H1.
    + apply IH. exact H2.
Qed.

Section Forces.

Variable fl : float_ops.

Lemma force_inner_type0 (diam : list point) (fline : list label) (p : nat)
  (rs : list nat) (x : Z) :
  force_inner fl 0 diam fline p rs (Int x)
  = Ok (Int (x + inner_sum diam fline p rs)).
Proof.
  revert x. unfold inner_sum.
  induction rs as [|r rs IH]; intros x; simpl.
  - f_equal. f_equal. lia.
  - destruct (label_eqb (nth r fline L_) LB); simpl.
    + rewrite IH. f_equal. f_equal. lia.
    + apply IH.
Qed.

Lemma force_outer_type0 (diam : list point) (fline : list label)
  (ps : list nat) (x : Z) :
  force_outer fl 0 diam fline ps (Int x)
  = Ok (Int (x + sumZ (map (fun p =>
                              if label_eqb (nth p fline L_) LA
                              then inner_sum diam fline p
                                     (seq p (length fline - p))
                              else 0) ps))).
Proof.
  revert x. induction ps as [|p ps IH]; intros x; simpl.
  - f_equal. f_equal. lia.
  - destruct (label_eqb (nth p fline L_) LA).
    + rewrite force_inner_type0. simpl bind. rewrite IH. f_equal. f_equal. lia.
    + rewrite IH. reflexivity.
Qed.

(** The positions after an A position that carry a B are the B
    positions of the range the inner loop scans. *)
Lemma later_B_positions (fline : list label) (p : nat) :
  (p < length fline)%nat ->
  label_eqb (nth p fline L_) LA = true ->
  filter (fun r => (p <? r)%nat && label_eqb (nth p fline L_) LA
                   && label_eqb (nth r fline L_) LB)
         (seq 0 (length fline))
  = filter (fun r => label_eqb (nth r fline L_) LB)
           (seq p (length fline - p)).
Proof.
  intros Hp HA.
  replace (length fline) with (p + (length fline - p))%nat at 1 by lia.
  rewrite seq_app, filter_app. simpl.
  replace (filter _ (seq 0 p)) with (@nil nat).
  - simpl. apply filter_ext_in. intros r Hr. apply in_seq in Hr.
    rewrite HA. rewrite andb_true_r.
    destruct (Nat.eq_dec r p) as [->|Hne].
    + apply label_eqb_eq in HA. rewrite HA. rewrite Nat.ltb_irrefl. reflexivity.
    + replace (p <? r)%nat with true; [reflexivity|].
      symmetry. apply Nat.ltb_lt. lia.
  - symmetry. rewrite <- (filter_ext_in (fun _ => false)).
    + induction (seq 0 p); simpl; auto.
    + intros r Hr. apply in_seq in Hr.
      replace (p <? r)%nat with false; [reflexivity|].
      symmetry. apply Nat.ltb_ge. lia.
Qed.

Lemma pair_sum_trunc_rows (diam : list point) (fline : list label) :
  pair_sum_trunc diam fline
  = sumZ (map (fun p => if label_eqb (nth p fline L_) LA
                        then inner_sum diam fline p (seq p (length fline - p))
                        else 0)
              (seq 0 (length fline))).
Proof.
  unfold pair_sum_trunc, ab_pairs.
  change (fold_right Z.add 0) with sumZ.
  rewrite (sumZ_filter_prod
             (fun pr => int_dist (nth (fst pr) diam (0, 0)) (nth (snd pr) diam (0, 0)))).
  f_equal. apply map_ext_in. intros p Hp. apply in_seq in Hp. simpl.
  destruct (label_eqb (nth p fline L_) LA) eqn:HA.
  - unfold inner_sum. rewrite <- (later_B_positions fline p) by (lia || exact HA).
    rewrite HA. reflexivity.
  - rewrite <- (filter_ext_in (fun _ => false)).
    + induction (seq 0 (length fline)); simpl; auto.
    + intros r _. rewrite andb_false_r. reflexivity.
Qed.

(** With force type 0, the force of a diameter is the sum of the
    truncated distances over its (A, B) pairs. *)
Lemma line_force_type0 (diam : list point) (fline : list label) :
  line_force fl 0 diam fline = Ok (Int (pair_sum_trunc diam fline)).
Proof.
  unfold line_force. rewrite pair_sum_trunc_rows.
  destruct (existsb (label_eqb LA) fline) eqn:EA; simpl andb.
  - destruct (existsb (label_eqb LB) fline) eqn:EB.
    + rewrite force_outer_type0. reflexivity.
    + f_equal. f_equal. symmetry.
      rewrite (map_ext _ (fun _ => 0)).
      * induction (seq 0 (length fline)); simpl; auto.
      * intros p. destruct (label_eqb (nth p fline L_) LA); [|reflexivity].
        unfold inner_sum. rewrite <- (filter_ext (fun _ => false)).
        -- induction (seq p (length fline - p)); simpl; auto.
        -- intros r. symmetry. apply nth_label_absent; [discriminate|exact EB].
  - f_equal. f_equal. symmetry.
    rewrite (map_ext _ (fun _ => 0)).
    + induction (seq 0 (length fline)); simpl; auto.
    + intros p. rewrite nth_label_absent; [reflexivity|discriminate|exact EA].
Qed.

End Forces.

(** C7, as the claim states it, fails: on the diameter (0, 0), (1, 1) with
    the first point labelled A and the second labelled B, the force of type
    0 is the integer 1, while the raw distance between the two points is
    the square root of 2. *)
Lemma force_type0_is_not_raw_distance :
  mapM (mapM (travel_label [dot_mask 2 2 1 1; dot_mask 2 2 0 0])) [[(0, 0); (1, 1)]]
  = Ok [[LA; LB]] /\
  forces q_ops [dot_mask 2 2 1 1; dot_mask 2 2 0 0] [[(0, 0); (1, 1)]] 0
  = Ok [Int 1] /\
  pair_sum_raw [(0, 0); (1, 1)] [LA; LB] = sqrt 2 /\
  IZR 1 <> pair_sum_raw [(0, 0); (1, 1)] [LA; LB].
Proof.
  assert (Hraw : pair_sum_raw [(0, 0); (1, 1)] [LA; LB] = sqrt 2).
  { unfold pair_sum_raw. change (ab_pairs [LA; LB]) with [(0%nat, 1%nat)].
    simpl. change (sq_dist (0, 0) (1, 1)) with 2. apply Rplus_0_r. }
  repeat split; try (vm_compute; reflexivity); try exact Hraw.
  rewrite Hraw. intros H.
  assert (H2 : (sqrt 2 * sqrt 2 = 2)%R) by (apply sqrt_def; lra).
  rewrite <- H in H2. lra.
Qed.

(** C7, amended.  For force type 0, the force value of every diameter
    equals the sum, over all ordered pairs of positions (p_A < p_B) along
    the diameter where the point at p_A is labeled A and the point at p_B is
    labeled B, of the Euclidean distance between the two pixel coordinates
    truncated to an integer. *)
Theorem forces_type0_sum_of_truncated_distances (fl : float_ops)
  (objects : list mask) (diameters : list (list point))
  (travels : list (list label)) :
  mapM (mapM (travel_label objects)) diameters = Ok travels ->
  forces fl objects diameters 0
  = Ok (map (fun df => Int (pair_sum_trunc (fst df) (snd df)))
            (combine diameters travels)).
Proof.
  intros H. unfold forces. rewrite H. simpl bind.
  apply mapM_pure. intros df _. apply line_force_type0.
Qed.

Lemma forces_type0_sum_of_truncated_distances_witness :
  forces q_ops [dot_mask 8 8 1 3; dot_mask 8 8 6 3]
         [[(6, 3); (5, 3); (4, 3); (3, 3); (2, 3); (1, 3); (0, 3)];
          [(3, 0); (3, 1); (3, 2)]] 0
  = Ok [Int 5; Int 0].
Proof.
  apply (forces_type0_sum_of_truncated_distances q_ops
           [dot_mask 8 8 1 3; dot_mask 8 8 6 3]
           [[(6, 3); (5, 3); (4, 3); (3, 3); (2, 3); (1, 3); (0, 3)];
            [(3, 0); (3, 1); (3, 2)]]
           [[LA; L_; L_; L_; L_; LB; L_]; [L_; L_; L_]]).
  vm_compute. reflexivity.
Defined.

(** ** Distances between distinct points *)

Lemma sq_dist_distinct (p q : point) : p <> q -> 1 <= sq_dist p q.
Proof.
  destruct p as [px py], q as [qx qy]. intros Hne. unfold sq_dist. simpl.
  assert (Hd : px - qx <> 0 \/ py - qy <> 0).
  { destruct (Z.eq_dec px qx) as [->|Hx]; [|left; lia].
    destruct (Z.eq_dec py qy) as [->|Hy]; [|right; lia].
    exfalso. apply Hne. reflexivity. }
  pose proof (Z.square_nonneg (px - qx)) as Hx.
  pose proof (Z.square_nonneg (py - qy)) as Hy.
  destruct Hd as [Hd|Hd].
  - assert (1 <= (px - qx) * (px - qx)) by nia. lia.
  - assert (1 <= (py - qy) * (py - qy)) by nia. lia.
Qed.

Lemma int_dist_distinct (p q : point) : p <> q -> 1 <= int_dist p q.
Proof.
  intros Hne. unfold int_dist.
  change 1 with (Z.sqrt 1). apply Z.sqrt_le_mono. apply sq_dist_distinct. exact Hne.
Qed.

Lemma int_dist_nodup (diam : list point) (p r : nat) :
  NoDup diam -> (p < length diam)%nat -> (r < length diam)%nat -> p <> r ->
  1 <= int_dist (nth p diam (0, 0)) (nth r diam (0, 0)).
Proof.
  intros Hnd Hp Hr Hne. apply int_dist_distinct. intros Heq. apply Hne.
  exact (proj1 (NoDup_nth diam (0, 0)) Hnd p r Hp Hr Heq).
Qed.

Section ForcesDefined.

Variable fl : float_ops.

Lemma contribution_ok (force_type : Z) (a b : point) :
  force_type = 0 \/ 1 <= int_dist a b ->
  exists v, contribution fl force_type a b = Ok v.
Proof.
  intros H. unfold contribution.
  destruct (force_type =? 0) eqn:E; [eexists; reflexivity|].
  apply Z.eqb_neq in E. destruct H as [H|H]; [contradiction|].
  replace (int_dist a b * (int_dist a b + 2) =? 0) with false.
  - eexists. reflexivity.
  - symmetry. apply Z.eqb_neq. nia.
Qed.

Lemma force_inner_ok (force_type : Z) (diam : list point) (fline : list label)
  (p : nat) (rs : list nat) :
  (forall r, In r rs -> nth r fline L_ = LB ->
             force_type = 0 \/ 1 <= int_dist (nth p diam (0, 0)) (nth r diam (0, 0))) ->
  forall force, exists v, force_inner fl force_type diam fline p rs force = Ok v.
Proof.
  induction rs as [|r rs IH]; intros H force; simpl.
  - eexists. reflexivity.
  - destruct (label_eqb (nth r fline L_) LB) eqn:EB.
    + apply label_eqb_eq in EB.
      destruct (contribution_ok force_type (nth p diam (0, 0)) (nth r diam (0, 0)))
        as [c Hc]; [apply H; [left; reflexivity|exact EB]|].
      rewrite Hc. simpl bind. apply IH. intros; apply H; [right|]; assumption.
    + apply IH. intros; apply H; [right|]; assumption.
Qed.

Lemma force_outer_ok (force_type : Z) (diam : list point) (fline : list label)
  (ps : list nat) :
  (forall p r, In p ps -> nth p fline L_ = LA ->
               In r (seq p (length fline - p)) -> nth r fline L_ = LB ->
               force_type = 0 \/ 1 <= int_dist (nth p diam (0, 0)) (nth r diam (0, 0))) ->
  forall force, exists v, force_outer fl force_type diam fline ps force = Ok v.
Proof.
  induction ps as [|p ps IH]; intros H force; simpl.
  - eexists. reflexivity.
  - destruct (label_eqb (nth p fline L_) LA) eqn:EA.
    + apply label_eqb_eq in EA.
      destruct (force_inner_ok force_type diam fline p (seq p (length fline - p)))
        with (force := force) as [f Hf].
      { intros r Hr HB. apply (H p r); auto. left. reflexivity. }
      rewrite Hf. simpl bind. apply IH. intros p' r' Hp'. apply H. right. exact Hp'.
    + apply IH. intros p' r' Hp'. apply H. right. exact Hp'.
Qed.

(** A diameter of pairwise distinct points has a force of either type. *)
Lemma line_force_ok (force_type : Z) (diam : list point) (fline : list label) :
  force_type = 0 \/ NoDup diam -> length fline = length diam ->
  exists v, line_force fl force_type diam fline = Ok v.
Proof.
  intros H Hlen. unfold line_force.
  destruct (existsb (label_eqb LA) fline && existsb (label_eqb LB) fline);
    [|eexists; reflexivity].
  apply force_outer_ok. intros p r Hp HA Hr HB.
  destruct H as [H|Hnd]; [left; exact H|right].
  apply in_seq in Hp. apply in_seq in Hr.
  apply int_dist_nodup; try lia; try exact Hnd.
  intros ->. rewrite HA in HB. discriminate.
Qed.

End ForcesDefined.

(** C10.  With a non-zero force type, on a diameter whose points are
    pairwise distinct, the truncated distance between a point labelled A
    and any later point labelled B is at least 1, so the divisor
    [dist * (dist + 2)] of the logarithmic term is not zero and the force of
    the diameter is computed without [ZeroDivisionError]. *)
Theorem log_force_distance_at_least_one (fl : float_ops) (objects : list mask)
  (diam : list point) (fline : list label) (force_type : Z) :
  force_type <> 0 ->
  NoDup diam ->
  mapM (travel_label objects) diam = Ok fline ->
  (forall p r, (p < r < length diam)%nat ->
               nth p fline L_ = LA -> nth r fline L_ = LB ->
               1 <= int_dist (nth p diam (0, 0)) (nth r diam (0, 0))
               /\ int_dist (nth p diam (0, 0)) (nth r diam (0, 0))
                  * (int_dist (nth p diam (0, 0)) (nth r diam (0, 0)) + 2) <> 0
               /\ exists v, contribution fl force_type (nth p diam (0, 0))
                                         (nth r diam (0, 0)) = Ok (Flt v))
  /\ exists v, line_force fl force_type diam fline = Ok v.
Proof.
  intros Hft Hnd Hlab. split.
  - intros p r Hpr _ _.
    assert (Hd : 1 <= int_dist (nth p diam (0, 0)) (nth r diam (0, 0)))
      by (apply int_dist_nodup; try lia; exact Hnd).
    split; [exact Hd|]. split; [nia|].
    unfold contribution.
    replace (force_type =? 0) with false by (symmetry; apply Z.eqb_neq; exact Hft).
    replace (_ * _ =? 0) with false by (symmetry; apply Z.eqb_neq; nia).
    eexists. reflexivity.
  - apply line_force_ok; [right; exact Hnd|].
    apply mapM_length in Hlab. exact Hlab.
Qed.

Lemma log_force_distance_at_least_one_witness :
  exists v,
    line_force q_ops 2 [(6, 3); (5, 3); (4, 3); (3, 3); (2, 3); (1, 3); (0, 3)]
               [LA; L_; L_; L_; L_; LB; L_] = Ok v.
Proof.
  apply (log_force_distance_at_least_one q_ops
           [dot_mask 8 8 1 3; dot_mask 8 8 6 3]
           [(6, 3); (5, 3); (4, 3); (3, 3); (2, 3); (1, 3); (0, 3)]
           [LA; L_; L_; L_; L_; LB; L_] 2).
  - discriminate.
  - repeat constructor; simpl; intuition discriminate.
  - vm_compute. reflexivity.
Defined.

(** ** The three histograms *)

Lemma travel_label_total (a b : mask) (pt : point) :
  rectangular a -> rectangular b ->
  travel_label [a; b] pt = Ok (label_spec b a pt).
Proof.
  intros Ha Hb. unfold travel_label, label_spec.
  change (py_get [a; b] 1) with (Ok b). change (py_get [a; b] 0) with (Ok a).
  simpl bind. rewrite (point_overlap_inside b pt Hb). simpl bind.
  destruct (inside b pt); [reflexivity|].
  rewrite (point_overlap_inside a pt Ha). simpl bind.
  destruct (inside a pt); reflexivity.
Qed.

Lemma mapM_ok {A B : Type} (f : A -> result B) (l : list A) :
  (forall a, In a l -> exists b, f a = Ok b) ->
  exists r, mapM f l = Ok r.
Proof.
  induction l as [|a l IH]; intros H; simpl.
  - eexists. reflexivity.
  - destruct (H a) as [b Hb]; [left; reflexivity|]. rewrite Hb. simpl bind.
    destruct IH as [r Hr]; [intros; apply H; right; assumption|].
    rewrite Hr. simpl bind. eexists. reflexivity.
Qed.

Lemma in_combine_map {A B : Type} (g : A -> B) (l : list A) (a : A) (b : B) :
  In (a, b) (combine l (map g l)) -> In a l /\ b = g a.
Proof.
  induction l as [|x l IH]; simpl; [contradiction|].
  intros [H|H].
  - inversion H. subst. split; [left|]; reflexivity.
  - destruct (IH H) as [H1 H2]. split; [right|]; assumption.
Qed.

Lemma combine_map_length {A B : Type} (g : A -> B) (l : list A) :
  length (combine l (map g l)) = length l.
Proof. rewrite length_combine, length_map. apply Nat.min_id. Qed.

(** ** The contour of a square mask *)

Lemma obj_get_mask_at (obj : mask) (x y : Z) :
  rectangular obj -> 0 <= x < len obj -> 0 <= y < width_of obj ->
  obj_get obj x y = Ok (mask_at obj x y).
Proof.
  intros Hrect Hx Hy. unfold obj_get, mask_at.
  rewrite (py_get_nonneg obj x []) by exact Hx. simpl bind.
  replace ((0 <=? x) && (0 <=? y)) with true
    by (symmetry; apply andb_true_intro; split; apply Z.leb_le; lia).
  apply py_get_nonneg.
  rewrite (rectangular_row obj (Z.to_nat x) Hrect) by (unfold len in Hx; lia).
  exact Hy.
Qed.

Lemma mask_at_true_range (obj : mask) (x y : Z) :
  rectangular obj -> mask_at obj x y = true ->
  0 <= x < len obj /\ 0 <= y < width_of obj.
Proof.
  intros Hrect. unfold mask_at.
  destruct (0 <=? x) eqn:Ex; [|discriminate].
  destruct (0 <=? y) eqn:Ey; [|discriminate]. simpl.
  apply Z.leb_le in Ex. apply Z.leb_le in Ey. intros H.
  destruct (Z_lt_ge_dec x (len obj)) as [Hx|Hx].
  - split; [lia|]. split; [lia|].
    destruct (Z_lt_ge_dec y (width_of obj)) as [Hy|Hy]; [exact Hy|].
    rewrite nth_overflow in H; [discriminate|].
    pose proof (rectangular_row obj (Z.to_nat x) Hrect) as Hrow.
    unfold len in *. lia.
  - rewrite (nth_overflow obj) in H by (unfold len in Hx; lia).
    rewrite nth_nil_false in H. discriminate.
Qed.

Lemma mask_at_outside (obj : mask) (x y : Z) :
  rectangular obj -> ~ (0 <= x < len obj /\ 0 <= y < width_of obj) ->
  mask_at obj x y = false.
Proof.
  intros Hrect Hout. destruct (mask_at obj x y) eqn:E; [|reflexivity].
  exfalso. apply Hout. apply mask_at_true_range; assumption.
Qed.

Lemma not_obj_mask_at (obj : mask) (x y : Z) :
  rectangular obj -> 0 <= x < len obj -> 0 <= y < width_of obj ->
  not_obj obj x y = Ok (negb (mask_at obj x y)).
Proof.
  intros Hrect Hx Hy. unfold not_obj. rewrite obj_get_mask_at by assumption.
  reflexivity.
Qed.

(** On a square mask [isContour] never raises and decides the boundary
    predicate of the specification. *)
Lemma isContour_square (obj : mask) (x y : Z) :
  square obj -> isContour obj x y = Ok (is_contour_spec obj x y).
Proof.
  intros [Hrect Hsq]. unfold isContour, is_contour_spec.
  destruct (Z.ltb_spec x 0) as [Hx0|Hx0]; simpl orb.
  { rewrite mask_at_outside by (assumption || lia). reflexivity. }
  destruct (Z.ltb_spec y 0) as [Hy0|Hy0]; simpl orb.
  { rewrite mask_at_outside by (assumption || lia). reflexivity. }
  destruct (Z.leb_spec (len obj) x) as [Hx1|Hx1].
  { rewrite mask_at_outside by (assumption || lia). reflexivity. }
  rewrite (py_get_nonneg obj 0 []) by lia. simpl bind.
  simpl Z.to_nat. rewrite <- width_of_row0.
  destruct (Z.leb_spec (width_of obj) y) as [Hy1|Hy1].
  { rewrite mask_at_outside by (assumption || lia). reflexivity. }
  rewrite not_obj_mask_at by (assumption || lia). simpl bind.
  destruct (mask_at obj x y); [|reflexivity]. simpl negb. cbv iota. simpl andb.
  unfold on_border. rewrite Hsq.
  destruct ((x =? 0) || (y =? 0) || (x =? len obj - 1) || (y =? len obj - 1)) eqn:Eb;
    [reflexivity|].
  apply orb_false_elim in Eb. destruct Eb as [Eb E4].
  apply orb_false_elim in Eb. destruct Eb as [Eb E3].
  apply orb_false_elim in Eb. destruct Eb as [E1 E2].
  apply Z.eqb_neq in E1, E2, E3, E4.
  rewrite !not_obj_mask_at by (assumption || lia).
  unfold or_else. simpl bind.
  destruct (mask_at obj (x - 1) y), (mask_at obj (x + 1) y),
    (mask_at obj x (y - 1)), (mask_at obj x (y + 1)); reflexivity.
Qed.

Lemma contour_row_square (obj : mask) (i : Z) (js : list Z) :
  square obj ->
  contour_row obj i js
  = Ok (map (pair i) (filter (fun j => is_contour_spec obj i j) js)).
Proof.
  intros Hsq. induction js as [|j js IH]; simpl; [reflexivity|].
  rewrite isContour_square by exact Hsq. simpl bind. rewrite IH. simpl bind.
  destruct (is_contour_spec obj i j); reflexivity.
Qed.

Lemma contour_rows_square (obj : mask) (rows : list Z) :
  square obj ->
  contour_rows obj rows
  = Ok (flat_map (fun i => map (pair i)
                              (filter (fun j => is_contour_spec obj i j)
                                      (range (len obj)))) rows).
Proof.
  intros Hsq. induction rows as [|i rows IH]; simpl; [reflexivity|].
  rewrite contour_row_square by exact Hsq. simpl bind. rewrite IH. reflexivity.
Qed.

Lemma in_range (n z : Z) : In z (range n) <-> 0 <= z < n.
Proof.
  unfold range. rewrite in_map_iff. split.
  - intros [k [Hk Hin]]. apply in_seq in Hin. lia.
  - intros H. exists (Z.to_nat z). split; [lia|]. apply in_seq. lia.
Qed.

(** X25.  On every square mask [object_contour] returns, and the contour
    is the set of pixels of the boundary predicate: true, and on the outer
    border or next to a false (or missing) orthogonal neighbour. *)
Lemma object_contour_square (obj : mask) :
  square obj ->
  exists contour,
    object_contour obj = Ok contour
    /\ forall x y, In (x, y) contour <-> is_contour_spec obj x y = true.
Proof.
  intros Hsq. eexists. split.
  - unfold object_contour. apply contour_rows_square. exact Hsq.
  - intros x y. rewrite in_flat_map. split.
    + intros [i [_ Hin]]. apply in_map_iff in Hin.
      destruct Hin as [j [Heq Hj]]. inversion Heq. subst.
      apply filter_In in Hj. apply Hj.
    + intros H. exists x.
      assert (Hm : mask_at obj x y = true).
      { unfold is_contour_spec in H. apply andb_prop in H. apply H. }
      destruct Hsq as [Hrect Hw].
      apply mask_at_true_range in Hm; [|exact Hrect].
      split; [apply in_range; lia|].
      apply in_map_iff. exists y. split; [reflexivity|].
      apply filter_In. split; [apply in_range; lia|exact H].
Qed.

(** ** The cursor of the pruning pass *)

Lemma prune_step_reach (ch ch' : list point) (i i' : Z) :
  prune_step ch i = Some (Ok (ch', i')) -> cursor_in_reach (i, len ch).
Proof.
  unfold prune_step, cursor_in_reach. cbn [fst snd].
  destruct (i <? len ch - 1) eqn:E; [|discriminate].
  apply Z.ltb_lt in E. intros H. inversion H as [H1]. clear H.
  destruct (py_get ch (i - 1)) as [a|] eqn:G; [|discriminate].
  apply py_get_range in G. lia.
Qed.

Lemma prune_loop_reach (fuel : nat) :
  forall (ch : list point) (i : Z) (t : list (Z * Z)) r tr,
    prune_loop fuel ch i t = Some (r, tr) ->
    Forall cursor_in_reach t -> Forall cursor_in_reach tr.
Proof.
  induction fuel as [|fuel IH]; intros ch i t r tr; simpl;
    destruct (prune_step ch i) as [[[ch' i']|e]|] eqn:E; intros H Ht;
    try discriminate;
    try (inversion H; subst; apply Forall_rev; exact Ht).
  apply (IH _ _ _ _ _ H). constructor; [|exact Ht].
  eapply prune_step_reach. exact E.
Qed.

(** X27.  Every power test of the pruning pass is evaluated at a cursor
    [c] with [1 - n <= c < n - 1], where [n] is the length of the list at
    that time: the bound from below is the reach of negative indices,
    not 1. *)
Lemma convex_hull_cursors_reach (obj : mask) :
  Forall cursor_in_reach (convex_hull_cursors obj).
Proof.
  unfold convex_hull_cursors.
  destruct (object_contour obj) as [c|e]; [|constructor].
  destruct (prune (sortby_slope (get_corner_pixel c) c)) as [[r t]|] eqn:E;
    [|constructor].
  unfold prune in E. eapply prune_loop_reach; [exact E|constructor].
Qed.

(** * Further properties of the code *)

(** ** The pivot *)

Lemma lex_le_refl (p : point) : lex_le p p.
Proof. right. split; [reflexivity|lia]. Qed.

Lemma lex_le_trans (p q r : point) : lex_le p q -> lex_le q r -> lex_le p r.
Proof. unfold lex_le. intros [H1|[H1 H1']] [H2|[H2 H2']]; lia. Qed.

Lemma corner_step_spec (m p : point) :
  lex_le (corner_step m p) m /\ lex_le (corner_step m p) p
  /\ (corner_step m p = m \/ corner_step m p = p).
Proof.
  unfold corner_step.
  destruct ((fst p <? fst m) || ((fst p =? fst m) && (snd p <? snd m))) eqn:E.
  - split; [|split; [apply lex_le_refl|right; reflexivity]].
    apply orb_prop in E. destruct E as [E|E].
    + left. apply Z.ltb_lt. exact E.
    + apply andb_prop in E. destruct E as [E1 E2].
      apply Z.eqb_eq in E1. apply Z.ltb_lt in E2. right. lia.
  - split; [apply lex_le_refl|]. split; [|left; reflexivity].
    apply orb_false_elim in E. destruct E as [E1 E2].
    apply Z.ltb_ge in E1. apply andb_false_elim in E2.
    unfold lex_le. destruct E2 as [E2|E2].
    + apply Z.eqb_neq in E2. lia.
    + apply Z.ltb_ge in E2. lia.
Qed.

Lemma corner_fold_spec (contour : list point) (m : point) :
  lex_le (fold_left corner_step contour m) m
  /\ (forall p, In p contour -> lex_le (fold_left corner_step contour m) p)
  /\ (fold_left corner_step contour m = m
      \/ In (fold_left corner_step contour m) contour).
Proof.
  revert m. induction contour as [|q contour IH]; intros m; simpl.
  - split; [apply lex_le_refl|]. split; [contradiction|left; reflexivity].
  - destruct (IH (corner_step m q)) as [H1 [H2 H3]].
    destruct (corner_step_spec m q) as [S1 [S2 S3]].
    split; [eapply lex_le_trans; eassumption|]. split.
    + intros p [->|Hp]; [eapply lex_le_trans; eassumption|apply H2; exact Hp].
    + destruct H3 as [H3|H3]; [|right; right; exact H3].
      rewrite H3. destruct S3 as [S3|S3]; [left|right; left]; congruence.
Qed.

(** X1.  On a contour that has a point of abscissa below 9999, the pivot is
    a point of the contour and no point of the contour is before it in the
    lexicographic order (x first, then y). *)
Theorem get_corner_pixel_is_least (contour : list point) :
  (exists p, In p contour /\ fst p < 9999) ->
  In (get_corner_pixel contour) contour
  /\ forall p, In p contour -> lex_le (get_corner_pixel contour) p.
Proof.
  intros [p [Hp Hlt]]. unfold get_corner_pixel.
  destruct (corner_fold_spec contour (9999, 9999)) as [H1 [H2 H3]].
  split; [|exact H2].
  destruct H3 as [H3|H3]; [|exact H3].
  exfalso. specialize (H2 p Hp). rewrite H3 in H2.
  unfold lex_le in H2. simpl in H2. lia.
Qed.

Lemma get_corner_pixel_is_least_witness :
  In (get_corner_pixel [(2, 5); (1, 7); (1, 3)]) [(2, 5); (1, 7); (1, 3)].
Proof.
  apply (get_corner_pixel_is_least [(2, 5); (1, 7); (1, 3)]).
  exists (2, 5). split; [left; reflexivity|simpl; lia].
Defined.

(** X2.  When every point of the contour is lexicographically at or after
    (9999, 9999), as in an image with more than 9999 rows whose object
    lies beyond them, the pivot returned is the pair (9999, 9999) itself,
    whether or not it is a contour point. *)
Theorem get_corner_pixel_beyond_sentinel (contour : list point) :
  (forall p, In p contour -> lex_le (9999, 9999) p) ->
  get_corner_pixel contour = (9999, 9999).
Proof.
  intros H. unfold get_corner_pixel.
  destruct (corner_fold_spec contour (9999, 9999)) as [H1 [H2 H3]].
  destruct H3 as [H3|H3]; [exact H3|].
  specialize (H _ H3).
  destruct (fold_left corner_step contour (9999, 9999)) as [a b].
  unfold lex_le in *. simpl in *. f_equal; lia.
Qed.

Lemma get_corner_pixel_beyond_sentinel_witness :
  get_corner_pixel [(10000, 3); (10001, 0)] = (9999, 9999).
Proof.
  apply (get_corner_pixel_beyond_sentinel [(10000, 3); (10001, 0)]).
  intros p [<-|[<-|[]]]; left; simpl; lia.
Defined.

(** ** The slope sort *)

Lemma insert_by_perm (key : point -> Q) (x : point) (l : list point) :
  Permutation (insert_by key x l) (x :: l).
Proof.
  induction l as [|y l IH]; simpl; [apply Permutation_refl|].
  destruct (Qle_bool (key x) (key y)); [apply Permutation_refl|].
  eapply perm_trans; [apply perm_skip; exact IH|apply perm_swap].
Qed.

Lemma sorted_by_perm (key : point -> Q) (l : list point) :
  Permutation (sorted_by key l) l.
Proof.
  induction l as [|x l IH]; simpl; [apply perm_nil|].
  eapply perm_trans; [apply insert_by_perm|apply perm_skip; exact IH].
Qed.

Lemma insert_by_sorted (key : point -> Q) (x : point) (l : list point) :
  Sorted (key_le key) l -> Sorted (key_le key) (insert_by key x l).
Proof.
  induction l as [|y l IH]; simpl; intros Hs.
  - constructor; constructor.
  - destruct (Qle_bool (key x) (key y)) eqn:E.
    + constructor; [exact Hs|]. constructor. apply Qle_bool_iff. exact E.
    + assert (Hyx : (key y <= key x)%Q).
      { apply Qlt_le_weak. apply Qnot_le_lt. intros H.
        apply Qle_bool_iff in H. congruence. }
      inversion Hs as [|? ? Hs' Hd]. subst.
      constructor; [apply IH; exact Hs'|].
      destruct l as [|z l]; simpl.
      * constructor. exact Hyx.
      * destruct (Qle_bool (key x) (key z)); constructor; [exact Hyx|].
        inversion Hd. assumption.
Qed.

Lemma insert_by_filter (key : point -> Q) (k : Q) (x : point) (l : list point) :
  filter (fun p => Qeq_bool (key p) k) (insert_by key x l)
  = filter (fun p => Qeq_bool (key p) k) (x :: l).
Proof.
  induction l as [|y l IH]; [reflexivity|].
  simpl insert_by. destruct (Qle_bool (key x) (key y)) eqn:E; [reflexivity|].
  cbn [filter] in *. rewrite IH.
  destruct (Qeq_bool (key x) k) eqn:Ex; [|reflexivity].
  destruct (Qeq_bool (key y) k) eqn:Ey; [|reflexivity].
  exfalso. apply Qeq_bool_iff in Ex. apply Qeq_bool_iff in Ey.
  assert (H : Qle_bool (key x) (key y) = true).
  { apply Qle_bool_iff. rewrite Ex, Ey. apply Qle_refl. }
  congruence.
Qed.

(** X3.  [sortby_slope] returns the contour points rearranged: the same
    points with the same multiplicities, in non-decreasing order of their
    slope key, and points whose keys are equal keep the order they had in
    the contour. *)
Theorem sortby_slope_stable_sort (minpix : point) (contour : list point) :
  Permutation (sortby_slope minpix contour) contour
  /\ Sorted (key_le (compute_slope minpix)) (sortby_slope minpix contour)
  /\ forall k : Q,
       filter (fun p => Qeq_bool (compute_slope minpix p) k)
              (sortby_slope minpix contour)
       = filter (fun p => Qeq_bool (compute_slope minpix p) k) contour.
Proof.
  unfold sortby_slope. split; [apply sorted_by_perm|]. split.
  - induction contour as [|x l IH]; simpl; [constructor|].
    apply (insert_by_sorted (compute_slope minpix)). exact IH.
  - intros k. induction contour as [|x l IH]; [reflexivity|].
    simpl sorted_by.
    rewrite (insert_by_filter (compute_slope minpix)).
    cbn [filter]. rewrite IH. reflexivity.
Qed.

(** ** What the pruning pass keeps *)

Lemma subseq_refl {A : Type} (l : list A) : subseq l l.
Proof. induction l; constructor; assumption. Qed.

Lemma subseq_trans {A : Type} (l1 l2 l3 : list A) :
  subseq l1 l2 -> subseq l2 l3 -> subseq l1 l3.
Proof.
  intros H12 H23. revert l1 H12.
  induction H23 as [|a l2 l3 H IH|a l2 l3 H IH]; intros l1 H12.
  - exact H12.
  - constructor. apply IH. exact H12.
  - inversion H12; subst.
    + constructor. apply IH. assumption.
    + apply subseq_keep. apply IH. assumption.
Qed.

Lemma subseq_incl {A : Type} (l1 l2 : list A) : subseq l1 l2 -> incl l1 l2.
Proof.
  induction 1 as [|a l1 l2 H IH|a l1 l2 H IH]; intros x Hx.
  - exact Hx.
  - right. apply IH. exact Hx.
  - destruct Hx as [->|Hx]; [left; reflexivity|right; apply IH; exact Hx].
Qed.

Lemma subseq_length {A : Type} (l1 l2 : list A) :
  subseq l1 l2 -> (length l1 <= length l2)%nat.
Proof. induction 1; simpl; lia. Qed.

Lemma subseq_NoDup {A : Type} (l1 l2 : list A) :
  subseq l1 l2 -> NoDup l2 -> NoDup l1.
Proof.
  induction 1 as [|a l1 l2 H IH|a l1 l2 H IH]; intros Hnd.
  - exact Hnd.
  - inversion Hnd. auto.
  - inversion Hnd as [|? ? Hn Hnd']. subst. constructor; [|auto].
    intros Hin. apply Hn. eapply subseq_incl; eassumption.
Qed.

Lemma subseq_app {A : Type} (l1 l1' l2 l2' : list A) :
  subseq l1 l1' -> subseq l2 l2' -> subseq (l1 ++ l2) (l1' ++ l2').
Proof.
  induction 1; intros H2; simpl.
  - exact H2.
  - apply subseq_skip. auto.
  - apply subseq_keep. auto.
Qed.

Lemma remove_nth_subseq {A : Type} (n : nat) (l : list A) :
  subseq (remove_nth n l) l.
Proof.
  revert l. induction n as [|n IH]; intros [|a l]; simpl.
  - constructor.
  - constructor. apply subseq_refl.
  - constructor.
  - apply subseq_keep. apply IH.
Qed.

Lemma prune_step_subseq (ch ch' : list point) (i i' : Z) :
  prune_step ch i = Some (Ok (ch', i')) -> subseq ch' ch.
Proof.
  unfold prune_step. destruct (i <? len ch - 1); [|discriminate].
  intros H. inversion H as [H1]. clear H.
  destruct (py_get ch (i - 1)) as [a|]; [|discriminate]. simpl in H1.
  destruct (py_get ch (i + 1)) as [c|]; [|discriminate]. simpl in H1.
  destruct (py_get ch i) as [b|]; [|discriminate]. simpl in H1.
  destruct (0 <=? compute_power a c b).
  - inversion H1. apply subseq_refl.
  - unfold py_pop in H1. destruct (norm_index ch i); [|discriminate].
    simpl in H1. inversion H1. apply remove_nth_subseq.
Qed.

Lemma prune_loop_subseq (fuel : nat) :
  forall (ch : list point) (i : Z) (t : list (Z * Z)) ch' tr,
    prune_loop fuel ch i t = Some (Ok ch', tr) -> subseq ch' ch.
Proof.
  induction fuel as [|fuel IH]; intros ch i t ch' tr; simpl;
    destruct (prune_step ch i) as [[[ch2 i2]|e]|] eqn:E; intros H;
    try discriminate;
    try (inversion H; subst; apply subseq_refl).
  eapply subseq_trans; [eapply IH; exact H|].
  eapply prune_step_subseq. exact E.
Qed.

(** X4.  Whenever [convex_hull] returns, the hull sequence is the
    slope-sorted contour with some points removed and the order of the rest
    kept; every hull vertex is a contour point and the pivot is the one
    [get_corner_pixel] selects on the contour. *)
Theorem convex_hull_keeps_contour_points (obj : mask) (min_pix : point)
  (ch : list point) :
  convex_hull obj = Some (Ok (min_pix, ch)) ->
  exists contour,
    object_contour obj = Ok contour
    /\ min_pix = get_corner_pixel contour
    /\ subseq ch (sortby_slope min_pix contour)
    /\ incl ch contour.
Proof.
  unfold convex_hull. destruct (object_contour obj) as [contour|e]; [|discriminate].
  unfold convex_hull_of_contour.
  destruct (prune (sortby_slope (get_corner_pixel contour) contour))
    as [[r t]|] eqn:E; [|discriminate].
  destruct r as [ch'|e]; [|discriminate]. simpl. intros H.
  injection H as Hp Hc. subst ch'. subst min_pix.
  exists contour. split; [reflexivity|]. split; [reflexivity|].
  assert (Hs : subseq ch (sortby_slope (get_corner_pixel contour) contour))
    by (eapply prune_loop_subseq; exact E).
  split; [exact Hs|].
  intros p Hp. apply subseq_incl in Hs.
  eapply Permutation_in; [apply sorted_by_perm|]. apply Hs. exact Hp.
Qed.

Lemma convex_hull_keeps_contour_points_witness :
  exists contour,
    object_contour (full_mask 3 3) = Ok contour
    /\ (0, 0) = get_corner_pixel contour
    /\ subseq [(1, 0); (2, 0); (2, 1); (2, 2); (1, 2)] (sortby_slope (0, 0) contour)
    /\ incl [(1, 0); (2, 0); (2, 1); (2, 2); (1, 2)] contour.
Proof.
  apply (convex_hull_keeps_contour_points (full_mask 3 3) (0, 0)
           [(1, 0); (2, 0); (2, 1); (2, 2); (1, 2)]).
  vm_compute. reflexivity.
Defined.

(** ** Local convexity of the result *)

Lemma nth_remove_nth_lt {A : Type} (n k : nat) (l : list A) (d : A) :
  (k < n)%nat -> nth k (remove_nth n l) d = nth k l d.
Proof.
  revert k l. induction n as [|n IH]; intros k [|a l] H; simpl; try lia;
    try reflexivity.
  destruct k; [reflexivity|]. apply IH. lia.
Qed.

Lemma prune_step_passed (ch ch' : list point) (i i' : Z) :
  prune_step ch i = Some (Ok (ch', i')) -> passed ch i -> passed ch' i'.
Proof.
  unfold prune_step. destruct (i <? len ch - 1) eqn:E; [|discriminate].
  apply Z.ltb_lt in E. intros H Hinv. inversion H as [H1]. clear H.
  destruct (py_get ch (i - 1)) as [a|] eqn:Ga; [|discriminate]. simpl in H1.
  destruct (py_get ch (i + 1)) as [c|] eqn:Gc; [|discriminate]. simpl in H1.
  destruct (py_get ch i) as [b|] eqn:Gb; [|discriminate]. simpl in H1.
  destruct (0 <=? compute_power a c b) eqn:P.
  - injection H1 as <- <-. apply Z.leb_le in P.
    intros j Hj Hlt Hlen.
    destruct (Z.eq_dec (Z.of_nat j) i) as [Heq|Hne].
    + subst i.
      rewrite (py_get_nonneg ch _ (0, 0)) in Ga by (unfold len; lia).
      rewrite (py_get_nonneg ch _ (0, 0)) in Gc by (unfold len; lia).
      rewrite (py_get_nonneg ch _ (0, 0)) in Gb by (unfold len; lia).
      injection Ga as <-. injection Gc as <-. injection Gb as <-.
      replace (Z.to_nat (Z.of_nat j - 1)) with (j - 1)%nat in P by lia.
      replace (Z.to_nat (Z.of_nat j + 1)) with (j + 1)%nat in P by lia.
      rewrite Nat2Z.id in P. exact P.
    + apply Hinv; lia.
  - unfold py_pop in H1. destruct (norm_index ch i) as [n|] eqn:N; [|discriminate].
    simpl in H1. injection H1 as <- <-.
    intros j Hj Hlt Hlen.
    assert (Hi : 0 <= i < len ch) by (unfold len in *; lia).
    rewrite norm_index_nonneg in N by exact Hi. inversion N. subst n.
    rewrite !nth_remove_nth_lt by lia.
    apply Hinv; try lia.
    rewrite remove_nth_length in Hlen by (unfold len in Hi; lia). lia.
Qed.

Lemma prune_loop_convex (fuel : nat) :
  forall (ch : list point) (i : Z) (t : list (Z * Z)) ch' tr,
    prune_loop fuel ch i t = Some (Ok ch', tr) ->
    passed ch i -> locally_convex ch'.
Proof.
  induction fuel as [|fuel IH]; intros ch i t ch' tr; simpl;
    destruct (prune_step ch i) as [[[ch2 i2]|e]|] eqn:E; intros H Hinv;
    try discriminate.
  - inversion H. subst. unfold prune_step in E.
    destruct (i <? len ch' - 1) eqn:L; [discriminate|]. apply Z.ltb_ge in L.
    intros j Hj Hlen. apply Hinv; [exact Hj| |exact Hlen]. unfold len in L. lia.
  - eapply IH; [exact H|]. eapply prune_step_passed; eassumption.
  - inversion H. subst. unfold prune_step in E.
    destruct (i <? len ch' - 1) eqn:L; [discriminate|]. apply Z.ltb_ge in L.
    intros j Hj Hlen. apply Hinv; [exact Hj| |exact Hlen]. unfold len in L. lia.
Qed.

(** X5.  Whenever [convex_hull] returns, the power test holds at every
    interior position of the hull sequence: for three consecutive points
    [a], [b], [c] of it, [compute_power a c b >= 0]. *)
Theorem convex_hull_locally_convex (obj : mask) (min_pix : point)
  (ch : list point) :
  convex_hull obj = Some (Ok (min_pix, ch)) -> locally_convex ch.
Proof.
  unfold convex_hull. destruct (object_contour obj) as [contour|e]; [|discriminate].
  unfold convex_hull_of_contour.
  destruct (prune (sortby_slope (get_corner_pixel contour) contour))
    as [[r t]|] eqn:E; [|discriminate].
  destruct r as [ch'|e]; [|discriminate]. simpl. intros H.
  injection H as Hp Hc. subst ch'.
  unfold prune in E. eapply prune_loop_convex; [exact E|].
  intros j Hj Hlt. lia.
Qed.

Lemma convex_hull_locally_convex_witness :
  locally_convex [(1, 0); (2, 0); (3, 0); (4, 0); (4, 1); (4, 2); (4, 3);
                  (4, 4); (3, 4); (2, 4); (1, 4)].
Proof.
  apply (convex_hull_locally_convex (full_mask 5 5) (0, 0)).
  vm_compute. reflexivity.
Defined.

(** ** The contour of any mask *)

Lemma isContour_true (obj : mask) (x y : Z) :
  isContour obj x y = Ok true ->
  0 <= x < len obj /\ 0 <= y /\ obj_get obj x y = Ok true.
Proof.
  unfold isContour.
  destruct (Z.ltb_spec x 0) as [Hx0|Hx0]; simpl orb; [discriminate|].
  destruct (Z.ltb_spec y 0) as [Hy0|Hy0]; simpl orb; [discriminate|].
  destruct (Z.leb_spec (len obj) x) as [Hx1|Hx1]; [discriminate|].
  destruct (py_get obj 0) as [row0|]; [|discriminate]. simpl bind.
  destruct (len row0 <=? y); [discriminate|].
  unfold not_obj. destruct (obj_get obj x y) as [[|]|]; simpl bind;
    try discriminate.
  intros _. repeat split; lia.
Qed.

Lemma contour_row_subseq (obj : mask) (i : Z) (js : list Z) (r : list point) :
  contour_row obj i js = Ok r ->
  subseq r (map (pair i) js)
  /\ forall p, In p r -> isContour obj (fst p) (snd p) = Ok true.
Proof.
  revert r. induction js as [|j js IH]; simpl; intros r H.
  - injection H as <-. split; [constructor|contradiction].
  - destruct (isContour obj i j) as [c|] eqn:C; [|discriminate]. simpl in H.
    destruct (contour_row obj i js) as [rest|]; [|discriminate]. simpl in H.
    injection H as <-. destruct (IH rest eq_refl) as [IH1 IH2].
    destruct c.
    + split; [apply subseq_keep; exact IH1|].
      intros p [<-|Hp]; [exact C|apply IH2; exact Hp].
    + split; [apply subseq_skip; exact IH1|exact IH2].
Qed.

Lemma contour_rows_subseq (obj : mask) (rows : list Z) (c : list point) :
  contour_rows obj rows = Ok c ->
  subseq c (flat_map (fun i => map (pair i) (range (len obj))) rows)
  /\ forall p, In p c -> isContour obj (fst p) (snd p) = Ok true.
Proof.
  revert c. induction rows as [|i rows IH]; simpl; intros c H.
  - injection H as <-. split; [constructor|contradiction].
  - destruct (contour_row obj i (range (len obj))) as [r|] eqn:R; [|discriminate].
    simpl in H.
    destruct (contour_rows obj rows) as [rest|]; [|discriminate]. simpl in H.
    injection H as <-. destruct (IH rest eq_refl) as [IH1 IH2].
    apply contour_row_subseq in R. destruct R as [R1 R2].
    split; [apply subseq_app; assumption|].
    intros p Hp. apply in_app_or in Hp. destruct Hp; auto.
Qed.

Lemma Injective_map_NoDup_local {A B : Type} (f : A -> B) (l : list A) :
  (forall a b, f a = f b -> a = b) -> NoDup l -> NoDup (map f l).
Proof.
  intros Hinj. induction 1 as [|a l Ha Hl IH]; simpl; constructor; [|exact IH].
  intros Hin. apply in_map_iff in Hin. destruct Hin as [b [Hb Hin]].
  apply Hinj in Hb. subst. contradiction.
Qed.

Lemma range_NoDup (n : Z) : NoDup (range n).
Proof.
  unfold range. apply Injective_map_NoDup_local; [|apply seq_NoDup].
  intros a b H. lia.
Qed.

Lemma scan_NoDup (rows cols : list Z) :
  NoDup rows -> NoDup cols ->
  NoDup (flat_map (fun i => map (pair i) cols) rows).
Proof.
  intros Hr Hc. induction Hr as [|i rows Hi Hr IH]; simpl; [constructor|].
  apply NoDup_app; [| exact IH |].
  - apply Injective_map_NoDup_local; [|exact Hc].
    intros a b H. injection H. auto.
  - intros p Hp Hq. apply in_map_iff in Hp. destruct Hp as [j [<- _]].
    apply in_flat_map in Hq. destruct Hq as [i' [Hi' Hq]].
    apply in_map_iff in Hq. destruct Hq as [j' [Heq _]].
    injection Heq as -> _. contradiction.
Qed.

(** X6.  Whenever [object_contour] returns, on any mask, every contour
    point is a pixel of the grid at which the mask is true, and the contour
    has no duplicates. *)
Theorem contour_points_are_true_pixels (obj : mask) (contour : list point) :
  object_contour obj = Ok contour ->
  NoDup contour
  /\ forall x y, In (x, y) contour ->
       0 <= x < len obj /\ 0 <= y < len obj /\ obj_get obj x y = Ok true.
Proof.
  unfold object_contour. intros H. apply contour_rows_subseq in H.
  destruct H as [H1 H2]. split.
  - eapply subseq_NoDup; [exact H1|]. apply scan_NoDup; apply range_NoDup.
  - intros x y Hin. specialize (H2 _ Hin). simpl in H2.
    apply isContour_true in H2. destruct H2 as [Hx [Hy Hv]].
    apply subseq_incl in H1. specialize (H1 _ Hin).
    apply in_flat_map in H1. destruct H1 as [i [_ Hj]].
    apply in_map_iff in Hj. destruct Hj as [j [Heq Hj]].
    injection Heq as _ ->. apply in_range in Hj. repeat split; lia || assumption.
Qed.

Lemma contour_points_are_true_pixels_witness :
  NoDup [(0, 0); (0, 1); (0, 2); (1, 0); (1, 1)].
Proof.
  apply (contour_points_are_true_pixels l_mask [(0, 0); (0, 1); (0, 2); (1, 0); (1, 1)]).
  vm_compute. reflexivity.
Defined.

(** ** The touch test *)

Lemma point_eqb_eq (p q : point) : point_eqb p q = true <-> p = q.
Proof.
  destruct p as [a b], q as [c d]. unfold point_eqb. simpl.
  rewrite andb_true_iff, !Z.eqb_eq. split.
  - intros [-> ->]. reflexivity.
  - intros H. injection H. auto.
Qed.

Lemma py_in_In (pt : point) (l : list point) : py_in pt l = true <-> In pt l.
Proof.
  unfold py_in. rewrite existsb_exists. split.
  - intros [q [Hq H]]. apply point_eqb_eq in H. subst. exact Hq.
  - intros H. exists pt. split; [exact H|]. apply point_eqb_eq. reflexivity.
Qed.

Lemma in_matrix (x y px py : Z) :
  In (px, py) (matrix x y)
  <-> -1 <= px - x <= 1 /\ -1 <= py - y <= 1 /\ ~ (px = x /\ py = y + 1).
Proof.
  unfold matrix. simpl. split.
  - intros H.
    repeat (destruct H as [H|H]; [injection H as <- <-; lia|]). contradiction.
  - intros [Hx [Hy Hn]].
    assert (Hpx : px = x + 1 \/ px = x \/ px = x - 1) by lia.
    assert (Hpy : py = y + 1 \/ py = y \/ py = y - 1) by lia.
    destruct Hpx as [ -> | [ -> | -> ] ]; destruct Hpy as [ -> | [ -> | -> ] ];
      try (exfalso; apply Hn; split; reflexivity); tauto.
Qed.

(** X7.  [connected8_check x y obj_list] holds exactly when the list has a
    point at (x, y) or at one of its eight neighbours other than
    (x, y + 1): that neighbour is not in the list the function tests (where
    (x, y - 1) stands twice). *)
Theorem connected8_check_neighbours (x y : Z) (obj_list : list point) :
  connected8_check x y obj_list = true
  <-> exists px py,
        In (px, py) obj_list
        /\ -1 <= px - x <= 1 /\ -1 <= py - y <= 1
        /\ ~ (px = x /\ py = y + 1).
Proof.
  unfold connected8_check. rewrite existsb_exists. split.
  - intros [[px py] [Hm Hin]]. apply py_in_In in Hin. apply in_matrix in Hm.
    exists px, py. tauto.
  - intros [px [py [Hin H]]]. exists (px, py).
    split; [apply in_matrix; exact H|apply py_in_In; exact Hin].
Qed.

(** ** The closest pair *)

Lemma closest_step_ok (seen : list (point * point)) (p1 p2 : point)
  (st : Z * closest * closest) :
  scan_state_ok seen st ->
  scan_state_ok (seen ++ [(p1, p2)]) (closest_step p1 st p2).
Proof.
  destruct st as [[dist min1] min2]. unfold scan_state_ok, closest_step.
  fold (pair_dist p1 p2). intros [Hmin Hst].
  assert (Hd : dist <= 9999).
  { destruct Hst as [[-> _]|[q1 [q2 [_ [_ [_ [_ H]]]]]]]; lia. }
  destruct (Z.ltb_spec (pair_dist p1 p2) dist) as [L|L].
  - split.
    + intros q1 q2 Hq. apply in_app_or in Hq. destruct Hq as [Hq|[Hq|[]]].
      * specialize (Hmin _ _ Hq). lia.
      * injection Hq as <- <-. lia.
    + right. exists p1, p2. split; [apply in_or_app; right; left; reflexivity|].
      repeat split; lia.
  - split.
    + intros q1 q2 Hq. apply in_app_or in Hq. destruct Hq as [Hq|[Hq|[]]].
      * apply Hmin. exact Hq.
      * injection Hq as <- <-. exact L.
    + destruct Hst as [Hst|[q1 [q2 [Hq Hst]]]]; [left; exact Hst|].
      right. exists q1, q2. split; [apply in_or_app; left; exact Hq|exact Hst].
Qed.

Lemma closest_inner_ok (seen : list (point * point)) (p1 : point)
  (points2 : list point) (st : Z * closest * closest) :
  scan_state_ok seen st ->
  scan_state_ok (seen ++ map (pair p1) points2)
                (fold_left (closest_step p1) points2 st).
Proof.
  revert seen st. induction points2 as [|p2 l IH]; intros seen st H; simpl.
  - rewrite app_nil_r. exact H.
  - replace (seen ++ (p1, p2) :: map (pair p1) l)
      with ((seen ++ [(p1, p2)]) ++ map (pair p1) l)
      by (rewrite <- app_assoc; reflexivity).
    apply IH. apply closest_step_ok. exact H.
Qed.

Lemma closest_outer_ok (seen : list (point * point)) (points1 points2 : list point)
  (st : Z * closest * closest) :
  scan_state_ok seen st ->
  scan_state_ok (seen ++ list_prod points1 points2)
    (fold_left (fun st p1 => fold_left (closest_step p1) points2 st) points1 st).
Proof.
  revert seen st. induction points1 as [|p1 l IH]; intros seen st H; simpl.
  - rewrite app_nil_r. exact H.
  - rewrite app_assoc. apply IH. apply closest_inner_ok. exact H.
Qed.

Lemma closest_scan_ok (points1 points2 : list point) :
  scan_state_ok (list_prod points1 points2) (closest_scan points1 points2).
Proof.
  unfold closest_scan.
  apply (closest_outer_ok [] points1 points2 (9999, IntZero, IntZero)).
  simpl. split; [contradiction|left; auto].
Qed.

(** X8.  When some point of the first list and some point of the second
    are at Manhattan distance below 9999, [get_closest_convex_hull_points]
    returns a point of each list, and no pair of points of the two lists
    is closer in Manhattan distance than the pair returned. *)
Theorem closest_points_are_closest (points1 points2 : list point) :
  (exists q1 q2, In q1 points1 /\ In q2 points2 /\ pair_dist q1 q2 < 9999) ->
  exists p1 p2,
    get_closest_convex_hull_points points1 points2 = (Pt p1, Pt p2)
    /\ In p1 points1 /\ In p2 points2
    /\ forall q1 q2, In q1 points1 -> In q2 points2 ->
         pair_dist p1 p2 <= pair_dist q1 q2.
Proof.
  intros [q1 [q2 [H1 [H2 Hlt]]]].
  pose proof (closest_scan_ok points1 points2) as Hok.
  unfold get_closest_convex_hull_points.
  destruct (closest_scan points1 points2) as [[dist min1] min2].
  destruct Hok as [Hmin Hst].
  destruct Hst as [[-> _]|[p1 [p2 [Hp [-> [-> [Hd _]]]]]]].
  - specialize (Hmin q1 q2 (proj2 (in_prod_iff _ _ _ _) (conj H1 H2))). lia.
  - apply in_prod_iff in Hp. exists p1, p2.
    split; [reflexivity|]. split; [tauto|]. split; [tauto|].
    intros r1 r2 Hr1 Hr2. rewrite <- Hd. apply Hmin.
    apply in_prod_iff. tauto.
Qed.

Lemma closest_points_are_closest_witness :
  exists p1 p2,
    get_closest_convex_hull_points [(0, 0); (2, 1)] [(5, 5); (3, 1)] = (Pt p1, Pt p2)
    /\ In p1 [(0, 0); (2, 1)] /\ In p2 [(5, 5); (3, 1)]
    /\ forall q1 q2, In q1 [(0, 0); (2, 1)] -> In q2 [(5, 5); (3, 1)] ->
         pair_dist p1 p2 <= pair_dist q1 q2.
Proof.
  apply (closest_points_are_closest [(0, 0); (2, 1)] [(5, 5); (3, 1)]).
  exists (0, 0), (5, 5). repeat split; try (left; reflexivity).
Defined.

(** X9.  When no point of the first list is at Manhattan distance below
    9999 of a point of the second, in particular when one of the lists is
    empty, [get_closest_convex_hull_points] returns the pair of integers
    (0, 0) it started with, not a pair of points. *)
Theorem closest_points_default (points1 points2 : list point) :
  (forall q1 q2, In q1 points1 -> In q2 points2 -> 9999 <= pair_dist q1 q2) ->
  get_closest_convex_hull_points points1 points2 = (IntZero, IntZero).
Proof.
  intros Hfar.
  pose proof (closest_scan_ok points1 points2) as Hok.
  unfold get_closest_convex_hull_points.
  destruct (closest_scan points1 points2) as [[dist min1] min2].
  destruct Hok as [_ Hst].
  destruct Hst as [[_ [-> ->]]|[p1 [p2 [Hp [_ [_ [Hd Hlt]]]]]]]; [reflexivity|].
  apply in_prod_iff in Hp. specialize (Hfar p1 p2 (proj1 Hp) (proj2 Hp)). lia.
Qed.

Lemma closest_points_default_witness :
  get_closest_convex_hull_points [(0, 0)] [(5000, 5000)] = (IntZero, IntZero).
Proof.
  apply (closest_points_default [(0, 0)] [(5000, 5000)]).
  intros q1 q2 [<-|[]] [<-|[]]. vm_compute. discriminate.
Defined.

(** ** The hull polygon *)

Lemma py_get_last {A : Type} (l : list A) (d : A) :
  l <> [] -> py_get l (-1) = Ok (nth (length l - 1) l d).
Proof.
  intros Hne. unfold py_get, norm_index.
  assert (Hlen : (0 < length l)%nat) by (destruct l; [contradiction|simpl; lia]).
  replace ((0 <=? -1) && (-1 <? len l)) with false by reflexivity.
  replace ((-1 <? 0) && (- len l <=? -1)) with true
    by (symmetry; apply andb_true_intro; split;
        [reflexivity|apply Z.leb_le; unfold len; lia]).
  replace (Z.to_nat (len l + -1)) with (length l - 1)%nat by (unfold len; lia).
  destruct (nth_error l (length l - 1)) eqn:E.
  - f_equal. symmetry. apply nth_error_nth. exact E.
  - apply nth_error_None in E. lia.
Qed.

(** X10.  On every mask whose contour is empty, [convex_hull] returns a
    pivot and an empty hull sequence, and [compute_polygon] applied to that
    result raises [IndexError], whatever the rasterizer. *)
Theorem compute_polygon_of_empty_hull
  (bline : Z -> Z -> Z -> Z -> list point) (obj : mask) :
  object_contour obj = Ok [] ->
  exists min_pix ch,
    convex_hull obj = Some (Ok (min_pix, ch))
    /\ compute_polygon bline min_pix ch = Err IndexError.
Proof.
  intros H. exists (9999, 9999), []. split; [|reflexivity].
  unfold convex_hull. rewrite H. reflexivity.
Qed.

Lemma compute_polygon_of_empty_hull_witness :
  exists min_pix ch,
    convex_hull (empty_mask 3 3) = Some (Ok (min_pix, ch))
    /\ compute_polygon dda_line min_pix ch = Err IndexError.
Proof.
  apply (compute_polygon_of_empty_hull dda_line (empty_mask 3 3)).
  vm_compute. reflexivity.
Defined.

Lemma joins_start (bline : Z -> Z -> Z -> Z -> list point) (p q : point) :
  joins_end_points bline -> In p (bline (fst p) (snd p) (fst q) (snd q)).
Proof. intros H. destruct p as [a b]. simpl. apply H. Qed.

(** X11.  With a rasterizer that joins its end points, whenever
    [compute_polygon] returns, its points include the pivot and every
    vertex of the hull sequence; it returns exactly when that sequence is
    not empty. *)
Theorem compute_polygon_covers_vertices
  (bline : Z -> Z -> Z -> Z -> list point) (min_pix : point) (ch : list point) :
  joins_end_points bline ->
  ch <> [] ->
  exists points,
    compute_polygon bline min_pix ch = Ok points
    /\ In min_pix points /\ incl ch points.
Proof.
  intros Hj Hne. unfold compute_polygon.
  assert (Hlen : (0 < length ch)%nat) by (destruct ch; [contradiction|simpl; lia]).
  rewrite (py_get_nonneg ch 0 (0, 0)) by (unfold len; lia). simpl bind.
  rewrite (py_get_last ch (0, 0) Hne). simpl bind.
  eexists. split; [reflexivity|]. split.
  - apply in_or_app. left. apply joins_start. exact Hj.
  - intros v Hv. apply (In_nth _ _ (0, 0)) in Hv. destruct Hv as [k [Hk Hv]].
    apply in_or_app. right. apply in_or_app.
    destruct (Nat.eq_dec k (length ch - 1)) as [Hlast|Hmid].
    + right. subst k. subst v. apply joins_start. exact Hj.
    + left. apply in_flat_map. exists k. split.
      * apply in_seq. unfold point in *. lia.
      * subst v. apply joins_start. exact Hj.
Qed.

Lemma dda_line_joins : joins_end_points dda_line.
Proof.
  intros x1 y1 x2 y2. unfold dda_line.
  set (n := Z.max (Z.abs (x2 - x1)) (Z.abs (y2 - y1))).
  destruct (Z.eqb_spec n 0) as [H0|H0].
  - assert (x2 = x1 /\ y2 = y1) as [-> ->] by lia.
    split; left; reflexivity.
  - assert (Hn : 0 < n) by lia. split; apply in_map_iff.
    + exists 0. split; [|apply in_range; lia].
      rewrite !Z.mul_0_r, !Z.mul_0_l, !Z.add_0_l.
      rewrite Z.div_small by lia. f_equal; lia.
    + exists n. split; [|apply in_range; lia].
      replace (2 * n * (x2 - x1) + n) with ((x2 - x1) * (2 * n) + n) by lia.
      replace (2 * n * (y2 - y1) + n) with ((y2 - y1) * (2 * n) + n) by lia.
      rewrite !Z.div_add_l by lia. rewrite Z.div_small by lia. f_equal; lia.
Defined.

Lemma compute_polygon_covers_vertices_witness :
  exists points,
    compute_polygon dda_line (0, 0) [(1, 0); (2, 0); (2, 1); (2, 2); (1, 2)]
    = Ok points
    /\ In (0, 0) points
    /\ incl [(1, 0); (2, 0); (2, 1); (2, 2); (1, 2)] points.
Proof.
  apply (compute_polygon_covers_vertices dda_line (0, 0)
           [(1, 0); (2, 0); (2, 1); (2, 2); (1, 2)]).
  - exact dda_line_joins.
  - discriminate.
Defined.

(** ** The barycentre *)

Lemma in_combine_seq {A : Type} (l : list A) (s n : nat) (i : Z) (a : A) :
  In (i, a) (combine (map Z.of_nat (seq s n)) l) ->
  exists k, i = Z.of_nat (s + k) /\ (k < n)%nat /\ nth_error l k = Some a.
Proof.
  revert s n. induction l as [|b l IH]; intros s n H.
  - destruct (map Z.of_nat (seq s n)); contradiction.
  - destruct n as [|n]; [contradiction|]. simpl in H. destruct H as [H|H].
    + injection H as <- <-. exists 0%nat.
      split; [f_equal; lia|]. split; [lia|reflexivity].
    + apply IH in H. destruct H as [k [-> [Hk Hn]]].
      exists (S k). split; [f_equal; lia|]. split; [lia|exact Hn].
Qed.

Lemma in_enumerate {A : Type} (l : list A) (i : Z) (a : A) :
  In (i, a) (enumerate l) ->
  0 <= i < len l /\ nth_error l (Z.to_nat i) = Some a.
Proof.
  unfold enumerate, range. intros H. apply in_combine_seq in H.
  destruct H as [k [-> [Hk Hn]]]. unfold len in *. simpl.
  rewrite Nat2Z.id in *. split; [lia|exact Hn].
Qed.

Lemma combine_seq_in {A : Type} (l : list A) (s n k : nat) (a : A) :
  (length l <= n)%nat -> nth_error l k = Some a ->
  In (Z.of_nat (s + k), a) (combine (map Z.of_nat (seq s n)) l).
Proof.
  revert s n k. induction l as [|b l IH]; intros s n k Hn H.
  - destruct k; discriminate.
  - destruct n as [|n]; [simpl in Hn; lia|]. simpl.
    destruct k as [|k].
    + left. injection H as <-. f_equal. f_equal. lia.
    + right. replace (s + S k)%nat with (S s + k)%nat by lia.
      apply IH; [simpl in Hn; lia|exact H].
Qed.

Lemma enumerate_in {A : Type} (l : list A) (k : nat) (a : A) :
  nth_error l k = Some a -> In (Z.of_nat k, a) (enumerate l).
Proof.
  intros H. unfold enumerate, range, len. rewrite Nat2Z.id.
  apply (combine_seq_in l 0 (length l) k a); [lia|exact H].
Qed.

(** A pixel at which the mask is true is met by the two nested loops over
    [enumerate]. *)
Lemma true_pixel_enumerated (obj : mask) (x y : Z) :
  mask_at obj x y = true ->
  exists row, In (x, row) (enumerate obj) /\ In (y, true) (enumerate row).
Proof.
  unfold mask_at. destruct (0 <=? x) eqn:Ex; [|discriminate].
  destruct (0 <=? y) eqn:Ey; [|discriminate]. simpl.
  apply Z.leb_le in Ex. apply Z.leb_le in Ey. intros H.
  destruct (nth_error obj (Z.to_nat x)) as [row|] eqn:Er.
  - rewrite (nth_error_nth _ _ _ Er) in H.
    destruct (nth_error row (Z.to_nat y)) as [v|] eqn:Ev.
    + rewrite (nth_error_nth _ _ _ Ev) in H. subst v.
      exists row. split.
      * replace x with (Z.of_nat (Z.to_nat x)) by lia. apply enumerate_in. exact Er.
      * replace y with (Z.of_nat (Z.to_nat y)) by lia. apply enumerate_in. exact Ev.
    + apply nth_error_None in Ev. rewrite nth_overflow in H by exact Ev. discriminate.
  - apply nth_error_None in Er. rewrite (nth_overflow obj) in H by exact Er.
    rewrite nth_nil_false in H. discriminate.
Qed.

Lemma sum_shift (l : list Z) (a : Z) : fold_left Z.add l a = a + sum l.
Proof.
  unfold sum. revert a. induction l as [|z l IH]; intros a; simpl; [lia|].
  rewrite IH. rewrite (IH z). lia.
Qed.

Lemma sum_bounds (l : list Z) (b : Z) :
  (forall z, In z l -> 0 <= z <= b) -> 0 <= sum l <= b * len l.
Proof.
  induction l as [|z l IH]; intros H.
  - unfold sum, len. simpl. lia.
  - unfold sum. simpl. rewrite sum_shift.
    assert (Hz : 0 <= z <= b) by (apply H; left; reflexivity).
    assert (Hl : 0 <= sum l <= b * len l) by (apply IH; intros; apply H; right; assumption).
    unfold len in *. simpl length. rewrite Nat2Z.inj_succ. lia.
Qed.

Lemma int_div_mean (l : list Z) (b : Z) :
  l <> [] -> (forall z, In z l -> 0 <= z <= b) ->
  exists m, int_div (sum l) (len l) = Ok m /\ 0 <= m <= b.
Proof.
  intros Hne H. unfold int_div.
  assert (Hlen : 0 < len l) by (destruct l; [contradiction|unfold len; simpl; lia]).
  replace (len l =? 0) with false by (symmetry; apply Z.eqb_neq; lia).
  pose proof (sum_bounds l b H) as Hs.
  eexists. split; [reflexivity|].
  rewrite Z.quot_div_nonneg by lia. split.
  - apply Z.div_pos; lia.
  - apply Z.div_le_upper_bound; lia.
Qed.

Lemma x_pixels_range (obj : mask) (x : Z) :
  In x (x_pixels obj) -> 0 <= x <= len obj - 1.
Proof.
  unfold x_pixels. intros H. apply in_flat_map in H.
  destruct H as [[i row] [Hi H]]. apply in_flat_map in H.
  destruct H as [[j v] [_ H]]. simpl in H.
  destruct v; [|contradiction]. destruct H as [<-|[]].
  apply in_enumerate in Hi. lia.
Qed.

Lemma y_pixels_range (obj : mask) (y : Z) :
  rectangular obj -> In y (y_pixels obj) -> 0 <= y <= width_of obj - 1.
Proof.
  unfold y_pixels. intros Hrect H. apply in_flat_map in H.
  destruct H as [[i row] [Hi H]]. apply in_flat_map in H.
  destruct H as [[j v] [Hj H]]. simpl in H.
  destruct v; [|contradiction]. destruct H as [<-|[]].
  apply in_enumerate in Hi. apply in_enumerate in Hj. simpl in Hj.
  destruct Hi as [_ Hi]. apply nth_error_In in Hi.
  unfold rectangular in Hrect. rewrite Forall_forall in Hrect.
  rewrite <- (Hrect row Hi). lia.
Qed.

(** X12.  On a rectangular mask with at least one true pixel, [barycentre]
    returns a point, and that point is in the grid. *)
Theorem barycentre_in_grid (obj : mask) :
  rectangular obj -> has_true_pixel obj ->
  exists bx by_,
    barycentre obj = Ok (bx, by_)
    /\ 0 <= bx < len obj /\ 0 <= by_ < width_of obj.
Proof.
  intros Hrect [x [y Hxy]].
  destruct (true_pixel_enumerated obj x y Hxy) as [row [Hrow Hy]].
  assert (Hx : In x (x_pixels obj)).
  { unfold x_pixels. apply in_flat_map. exists (x, row). split; [exact Hrow|].
    apply in_flat_map. exists (y, true). split; [exact Hy|left; reflexivity]. }
  assert (Hy' : In y (y_pixels obj)).
  { unfold y_pixels. apply in_flat_map. exists (x, row). split; [exact Hrow|].
    apply in_flat_map. exists (y, true). split; [exact Hy|left; reflexivity]. }
  destruct (int_div_mean (x_pixels obj) (len obj - 1)) as [bx [Hbx Bx]].
  { intros E. rewrite E in Hx. contradiction. }
  { apply x_pixels_range. }
  destruct (int_div_mean (y_pixels obj) (width_of obj - 1)) as [by_ [Hby By]].
  { intros E. rewrite E in Hy'. contradiction. }
  { intros z Hz. apply y_pixels_range; assumption. }
  exists bx, by_. unfold barycentre. rewrite Hbx. simpl bind.
  rewrite Hby. simpl bind. split; [reflexivity|lia].
Qed.

Lemma barycentre_in_grid_witness :
  exists bx by_,
    barycentre l_mask = Ok (bx, by_)
    /\ 0 <= bx < len l_mask /\ 0 <= by_ < width_of l_mask.
Proof.
  apply (barycentre_in_grid l_mask).
  - repeat constructor.
  - exists 0, 0. reflexivity.
Defined.

(** ** The bounding box and the radius *)

Lemma fold_left_reaches {A E : Type} (f : A -> E -> A) (P : A -> Prop)
  (l : list E) (e0 : E) (a : A) :
  (forall acc e, P acc -> P (f acc e)) ->
  (forall acc, P (f acc e0)) ->
  In e0 l -> P (fold_left f l a).
Proof.
  intros Hkeep Hset. revert a. induction l as [|e l IH]; intros a Hin; [contradiction|].
  simpl. destruct Hin as [->|Hin]; [|apply IH; exact Hin].
  generalize (Hset a). generalize (f a e0). clear IH.
  induction l as [|e l IH]; intros acc Hacc; simpl; [exact Hacc|].
  apply IH. apply Hkeep. exact Hacc.
Qed.

Lemma bbox_pixel_keeps (i j : Z) (v : bool) (b : bbox_acc) (x y : Z) :
  covers b x y -> covers (bbox_pixel i j v b) x y.
Proof.
  unfold covers, bbox_pixel. destruct v; [|auto]. simpl.
  destruct (i <? minX b) eqn:E1; destruct (maxX b <? i) eqn:E2;
    destruct (j <? minY b) eqn:E3; destruct (maxY b <? j) eqn:E4;
    rewrite ?Z.ltb_lt, ?Z.ltb_ge in *; lia.
Qed.

Lemma bbox_pixel_sets (x y : Z) (b : bbox_acc) :
  covers (bbox_pixel x y true b) x y.
Proof.
  unfold covers, bbox_pixel. simpl.
  destruct (x <? minX b) eqn:E1; destruct (maxX b <? x) eqn:E2;
    destruct (y <? minY b) eqn:E3; destruct (maxY b <? y) eqn:E4;
    rewrite ?Z.ltb_lt, ?Z.ltb_ge in *; lia.
Qed.

Lemma bbox_row_keeps (b : bbox_acc) (il : Z * list bool) (x y : Z) :
  covers b x y -> covers (bbox_row b il) x y.
Proof.
  unfold bbox_row. generalize (enumerate (snd il)). intros l. revert b.
  induction l as [|jv l IH]; intros b H; simpl; [exact H|].
  apply IH. apply bbox_pixel_keeps. exact H.
Qed.

Lemma bounding_box_covers (obj : mask) (x y : Z) :
  mask_at obj x y = true ->
  covers (fold_left bbox_row (enumerate obj) (mk_bbox (len obj) 0 (len obj) 0)) x y.
Proof.
  intros H. destruct (true_pixel_enumerated obj x y H) as [row [Hrow Hy]].
  apply (fold_left_reaches bbox_row (fun b => covers b x y) _ (x, row)).
  - intros acc e. apply bbox_row_keeps.
  - intros acc. unfold bbox_row. simpl.
    apply (fold_left_reaches
             (fun a (jv : Z * bool) => bbox_pixel x (fst jv) (snd jv) a)
             (fun b => covers b x y) _ (y, true)).
    + intros a e. apply bbox_pixel_keeps.
    + intros a. apply bbox_pixel_sets.
    + exact Hy.
  - exact Hrow.
Qed.

(** X13.  For every mask, the bounding box computed by
    [radial_line_model_radius] contains every pixel at which the mask is
    true. *)
Theorem bounding_box_contains_true_pixels (obj : mask) (x y : Z) :
  mask_at obj x y = true ->
  exists x_lo x_hi y_lo y_hi,
    bounding_box obj = [x_lo; x_hi; y_lo; y_hi]
    /\ x_lo <= x <= x_hi /\ y_lo <= y <= y_hi.
Proof.
  intros H. pose proof (bounding_box_covers obj x y H) as Hc.
  unfold bounding_box. eexists _, _, _, _. split; [reflexivity|exact Hc].
Qed.

Lemma bounding_box_contains_true_pixels_witness :
  exists x_lo x_hi y_lo y_hi,
    bounding_box l_mask = [x_lo; x_hi; y_lo; y_hi]
    /\ x_lo <= 1 <= x_hi /\ y_lo <= 1 <= y_hi.
Proof.
  apply (bounding_box_contains_true_pixels l_mask 1 1). reflexivity.
Defined.

Lemma corner_update_ok (x y : Z) (bb : list Z) (st : Z * Z * Z) (xy : Z * Z) :
  search_state_ok x y st -> search_state_ok x y (corner_update x y bb st xy).
Proof.
  destruct st as [[o xm] ym]. unfold search_state_ok, corner_update.
  destruct (Z.ltb_spec o (manhattan x y (nth (Z.to_nat (fst xy)) bb 0)
                                        (nth (Z.to_nat (snd xy + 2)) bb 0))) as [L|L].
  - intros H. right. split; [|reflexivity]. destruct H as [[-> _]|[H _]]; lia.
  - auto.
Qed.

Lemma corner_update_keeps (x y : Z) (bb : list Z) (st : Z * Z * Z) (xy : Z * Z)
  (c : point) :
  reaches c x y st -> reaches c x y (corner_update x y bb st xy).
Proof.
  destruct st as [[o xm] ym]. unfold reaches, corner_update. simpl.
  destruct (Z.ltb_spec o (manhattan x y (nth (Z.to_nat (fst xy)) bb 0)
                                        (nth (Z.to_nat (snd xy + 2)) bb 0))) as [L|L];
    simpl; lia.
Qed.

Lemma corner_update_sets (x y : Z) (bb : list Z) (st : Z * Z * Z) (xy : Z * Z) :
  reaches (corner_of bb xy) x y (corner_update x y bb st xy).
Proof.
  destruct st as [[o xm] ym]. unfold reaches, corner_update, corner_of. simpl.
  destruct (Z.ltb_spec o (manhattan x y (nth (Z.to_nat (fst xy)) bb 0)
                                        (nth (Z.to_nat (snd xy + 2)) bb 0))) as [L|L];
    simpl; lia.
Qed.

Lemma fold_left_keeps {A E : Type} (f : A -> E -> A) (P : A -> Prop)
  (l : list E) (a : A) :
  (forall acc e, P acc -> P (f acc e)) -> P a -> P (fold_left f l a).
Proof.
  intros Hkeep. revert a. induction l as [|e l IH]; intros a Ha; simpl; auto.
Qed.

Lemma farthest_corner_ok (x y : Z) (bbs : list (list Z)) :
  search_state_ok x y (farthest_corner x y bbs).
Proof.
  unfold farthest_corner. apply fold_left_keeps.
  - intros acc bb Hacc. apply fold_left_keeps; [|exact Hacc].
    intros a e. apply corner_update_ok.
  - left. auto.
Qed.

Lemma farthest_corner_reaches (x y : Z) (bbs : list (list Z)) (bb : list Z)
  (xy : Z * Z) :
  In bb bbs -> In xy corner_indices ->
  reaches (corner_of bb xy) x y (farthest_corner x y bbs).
Proof.
  intros Hbb Hxy. unfold farthest_corner.
  apply (fold_left_reaches
           (fun st bb => fold_left (corner_update x y bb) corner_indices st)
           (reaches (corner_of bb xy) x y) _ bb).
  - intros acc e Hacc. apply fold_left_keeps; [|exact Hacc].
    intros a e'. apply corner_update_keeps.
  - intros acc.
    apply (fold_left_reaches (corner_update x y bb)
             (reaches (corner_of bb xy) x y) _ xy).
    + intros a e. apply corner_update_keeps.
    + intros a. apply corner_update_sets.
    + exact Hxy.
  - exact Hbb.
Qed.

Lemma sq_dist_le_manhattan_sq (x y a b : Z) :
  sq_dist (x, y) (a, b) <= manhattan x y a b * manhattan x y a b.
Proof.
  unfold sq_dist, manhattan. simpl.
  pose proof (Z.abs_spec (a - x)). pose proof (Z.abs_spec (b - y)). nia.
Qed.

Lemma manhattan_sq_le_twice_sq_dist (x y a b : Z) :
  manhattan x y a b * manhattan x y a b <= 2 * sq_dist (x, y) (a, b).
Proof.
  unfold sq_dist, manhattan. cbn [fst snd].
  pose proof (Z.abs_square (a - x)) as Hu.
  pose proof (Z.abs_square (b - y)) as Hv.
  pose proof (Z.square_nonneg (Z.abs (a - x) - Z.abs (b - y))) as Hs.
  replace ((x - a) * (x - a)) with ((a - x) * (a - x)) by lia.
  replace ((y - b) * (y - b)) with ((b - y) * (b - y)) by lia.
  set (u := Z.abs (a - x)) in *. set (v := Z.abs (b - y)) in *.
  clearbody u v. lia.
Qed.

(** In a box, some corner is at least as far from (x, y) as a given point
    of the box, in the Manhattan distance. *)
Lemma far_corner_exists (x y x_lo x_hi y_lo y_hi px py : Z) :
  x_lo <= px <= x_hi -> y_lo <= py <= y_hi ->
  exists xy, In xy corner_indices
    /\ manhattan x y px py
       <= manhattan x y (fst (corner_of [x_lo; x_hi; y_lo; y_hi] xy))
                        (snd (corner_of [x_lo; x_hi; y_lo; y_hi] xy)).
Proof.
  intros Hx Hy. unfold manhattan.
  assert (Cx : Z.abs (px - x) <= Z.abs (x_lo - x) \/ Z.abs (px - x) <= Z.abs (x_hi - x)) by lia.
  assert (Cy : Z.abs (py - y) <= Z.abs (y_lo - y) \/ Z.abs (py - y) <= Z.abs (y_hi - y)) by lia.
  destruct Cx as [Cx|Cx]; destruct Cy as [Cy|Cy].
  - exists (0, 0). split; [simpl; tauto|simpl; lia].
  - exists (0, 1). split; [simpl; tauto|simpl; lia].
  - exists (1, 0). split; [simpl; tauto|simpl; lia].
  - exists (1, 1). split; [simpl; tauto|simpl; lia].
Qed.

(** X14.  For every list of masks and every centre, each true pixel of
    each mask is at a squared Euclidean distance from the centre below
    twice the square of [radius + 1]: the radius of
    [radial_line_model_radius] reaches every object pixel up to a factor
    of the square root of 2. *)
Theorem radius_reaches_within_sqrt2 (objects : list mask) (x y : Z)
  (obj : mask) (px py : Z) :
  In obj objects -> mask_at obj px py = true ->
  sq_dist (x, y) (px, py)
  < 2 * ((radial_line_model_radius objects x y + 1)
         * (radial_line_model_radius objects x y + 1)).
Proof.
  intros Hobj Hp.
  pose proof (bounding_box_covers obj px py Hp) as [Hx Hy].
  set (bx := fold_left bbox_row (enumerate obj) (mk_bbox (len obj) 0 (len obj) 0)) in *.
  destruct (far_corner_exists x y (minX bx) (maxX bx) (minY bx) (maxY bx) px py Hx Hy)
    as [xy [Hxy Hfar]].
  assert (Hin : In [minX bx; maxX bx; minY bx; maxY bx] (map bounding_box objects)).
  { change [minX bx; maxX bx; minY bx; maxY bx] with (bounding_box obj).
    apply in_map. exact Hobj. }
  pose proof (farthest_corner_reaches x y _ _ xy Hin Hxy) as Hr.
  pose proof (farthest_corner_ok x y (map bounding_box objects)) as Hok.
  unfold radial_line_model_radius.
  destruct (farthest_corner x y (map bounding_box objects)) as [[o xm] ym].
  unfold reaches in Hr. cbn [fst] in Hr. unfold search_state_ok in Hok.
  pose proof (sq_dist_le_manhattan_sq x y px py) as H1.
  assert (Hm : 0 <= manhattan x y px py) by (unfold manhattan; lia).
  assert (Hmo : manhattan x y px py <= o) by lia.
  unfold int_dist.
  pose proof (Z.sqrt_nonneg (sq_dist (x, y) (xm, ym))) as Hs0.
  destruct Hok as [[-> _]|[Ho ->]].
  - assert (manhattan x y px py = 0) by lia. nia.
  - pose proof (manhattan_sq_le_twice_sq_dist x y xm ym) as H2.
    assert (Hd : 0 <= sq_dist (x, y) (xm, ym)).
    { unfold sq_dist. cbn [fst snd].
      pose proof (Z.square_nonneg (x - xm)). pose proof (Z.square_nonneg (y - ym)).
      lia. }
    pose proof (Z.sqrt_spec _ Hd) as [_ Hs]. unfold Z.succ in Hs.
    assert (Hsq : manhattan x y px py * manhattan x y px py
                  <= manhattan x y xm ym * manhattan x y xm ym)
      by (apply Z.mul_le_mono_nonneg; lia).
    lia.
Qed.

Lemma radius_reaches_within_sqrt2_witness :
  sq_dist (0, 0) (3, 0)
  < 2 * ((radial_line_model_radius [dot_mask 4 4 3 0; dot_mask 4 4 2 2] 0 0 + 1)
         * (radial_line_model_radius [dot_mask 4 4 3 0; dot_mask 4 4 2 2] 0 0 + 1)).
Proof.
  apply (radius_reaches_within_sqrt2 [dot_mask 4 4 3 0; dot_mask 4 4 2 2] 0 0
           (dot_mask 4 4 3 0) 3 0).
  - left. reflexivity.
  - reflexivity.
Defined.

(** ** The centre point *)

Lemma first_touch_cons (hull : list point) (pt : point) (lin : list point) :
  first_touch hull (pt :: lin)
  = if connected8_check (fst pt) (snd pt) hull then Some pt
    else first_touch hull lin.
Proof. reflexivity. Qed.

Lemma py_get_0 {A : Type} (a : A) (l : list A) : py_get (a :: l) 0 = Ok a.
Proof.
  rewrite (py_get_nonneg _ 0 a) by (unfold len; simpl length; lia). reflexivity.
Qed.

Lemma py_get_1 {A : Type} (a b : A) (l : list A) : py_get (a :: b :: l) 1 = Ok b.
Proof.
  rewrite (py_get_nonneg _ 1 a) by (unfold len; simpl length; lia). reflexivity.
Qed.

(** The loop with its two flags and its [break] finds, for each hull, the
    first point of the line that touches it. *)
Lemma touch_loop_first_touches (h0 h1 : list point) (rest : list (list point))
  (lin : list point) :
  forall (it1 it2 : bool) (fp1 fp2 : option point),
    (it1 = false -> fp1 = None) -> (it2 = false -> fp2 = None) ->
    touch_loop (h0 :: h1 :: rest) lin (it1, it2, fp1, fp2)
    = Ok (if it1 then fp1 else first_touch h0 lin,
          if it2 then fp2 else first_touch h1 lin).
Proof.
  induction lin as [|pt lin IH]; intros it1 it2 fp1 fp2 H1 H2.
  - simpl. destruct it1, it2; rewrite ?H1, ?H2 by reflexivity; reflexivity.
  - rewrite !first_touch_cons. cbn [touch_loop].
    rewrite py_get_0, py_get_1. cbn [bind].
    destruct (connected8_check (fst pt) (snd pt) h0);
      destruct (connected8_check (fst pt) (snd pt) h1);
      destruct it1; destruct it2; cbn [andb negb];
      try reflexivity; rewrite IH by (congruence || auto); reflexivity.
Qed.

(** X15.  When both hulls and both barycentres are computed, the centre
    point is the truncated midpoint of two points: for each mask, the first
    point of the segment between the barycentres that touches the polygon
    of its hull (in the sense of [connected8_check]), or the barycentre of
    the mask when no point of the segment touches it. *)
Theorem center_point_between_first_touches
  (bline : Z -> Z -> Z -> Z -> list point) (a b : mask)
  (pa pb : point) (ca cb : list point) (pt1 pt2 : point) :
  convex_hull a = Some (Ok (pa, ca)) ->
  convex_hull b = Some (Ok (pb, cb)) ->
  barycentre a = Ok pt1 ->
  barycentre b = Ok pt2 ->
  center_point bline [a; b]
  = Some (Ok (midpoint
                (or_barycentre
                   (first_touch (hull_points bline ca)
                                (bline (fst pt1) (snd pt1) (fst pt2) (snd pt2)))
                   pt1)
                (or_barycentre
                   (first_touch (hull_points bline cb)
                                (bline (fst pt1) (snd pt1) (fst pt2) (snd pt2)))
                   pt2))).
Proof.
  intros Ha Hb H1 H2. unfold center_point, hulls_of. rewrite Ha, Hb.
  cbn [bind].
  change (py_get [a; b] 0) with (Ok a). change (py_get [a; b] 1) with (Ok b).
  cbn [bind]. rewrite H1. cbn [bind]. rewrite H2. cbn [bind].
  rewrite touch_loop_first_touches by reflexivity. reflexivity.
Qed.

Lemma center_point_between_first_touches_witness :
  center_point dda_line [dot_mask 8 8 1 3; dot_mask 8 8 6 3] = Some (Ok (3, 3)).
Proof.
  apply (center_point_between_first_touches dda_line
           (dot_mask 8 8 1 3) (dot_mask 8 8 6 3)
           (1, 3) (6, 3) [(1, 3)] [(6, 3)] (1, 3) (6, 3));
    vm_compute; reflexivity.
Defined.

Lemma mask_at_no_true (obj : mask) (x y : Z) :
  no_true_pixel obj -> mask_at obj x y = false.
Proof.
  intros H. destruct (mask_at obj x y) eqn:E; [|reflexivity].
  destruct (true_pixel_enumerated obj x y E) as [row [Hr Hv]].
  apply in_enumerate in Hr. apply in_enumerate in Hv.
  destruct Hr as [_ Hr]. destruct Hv as [_ Hv].
  apply nth_error_In in Hr. apply nth_error_In in Hv.
  apply (H row Hr true Hv).
Qed.

Lemma isContour_no_true (obj : mask) (x y : Z) :
  rectangular obj -> no_true_pixel obj -> isContour obj x y = Ok false.
Proof.
  intros Hrect Hno. unfold isContour.
  destruct (Z.ltb_spec x 0) as [Hx0|Hx0]; simpl orb; [reflexivity|].
  destruct (Z.ltb_spec y 0) as [Hy0|Hy0]; simpl orb; [reflexivity|].
  destruct (Z.leb_spec (len obj) x) as [Hx1|Hx1]; [reflexivity|].
  rewrite (py_get_nonneg obj 0 []) by lia. simpl bind.
  simpl Z.to_nat. rewrite <- width_of_row0.
  destruct (Z.leb_spec (width_of obj) y) as [Hy1|Hy1]; [reflexivity|].
  rewrite not_obj_mask_at by (assumption || lia).
  rewrite mask_at_no_true by exact Hno. reflexivity.
Qed.

Lemma object_contour_no_true (obj : mask) :
  rectangular obj -> no_true_pixel obj -> object_contour obj = Ok [].
Proof.
  intros Hrect Hno. unfold object_contour.
  assert (Hrow : forall i js, contour_row obj i js = Ok []).
  { intros i js. induction js as [|j js IH]; simpl; [reflexivity|].
    rewrite isContour_no_true by assumption. simpl bind. rewrite IH. reflexivity. }
  induction (range (len obj)) as [|i rows IH] at 1; simpl; [reflexivity|].
  rewrite Hrow. simpl bind. rewrite IH. reflexivity.
Qed.

(** X16.  When the first mask is rectangular and has no true pixel, and the
    hull of the second mask is computed, [center_point] gets past the hull
    of the first mask, whose contour is empty, and fails in its barycentre
    with [ZeroDivisionError]. *)
Theorem center_point_empty_first_mask
  (bline : Z -> Z -> Z -> Z -> list point) (a b : mask)
  (pb : point) (cb : list point) :
  rectangular a -> no_true_pixel a ->
  convex_hull b = Some (Ok (pb, cb)) ->
  center_point bline [a; b] = Some (Err ZeroDivisionError).
Proof.
  intros Hrect Hno Hb. unfold center_point, hulls_of.
  unfold convex_hull at 1. rewrite (object_contour_no_true a Hrect Hno).
  change (convex_hull_of_contour []) with (Some (Ok ((9999, 9999), @nil point))).
  rewrite Hb. cbn [bind].
  change (py_get [a; b] 0) with (Ok a). cbn [bind].
  unfold barycentre. rewrite (x_pixels_no_true a Hno). reflexivity.
Qed.

Lemma center_point_empty_first_mask_witness :
  center_point dda_line [empty_mask 2 2; dot_mask 8 8 6 3]
  = Some (Err ZeroDivisionError).
Proof.
  apply (center_point_empty_first_mask dda_line (empty_mask 2 2)
           (dot_mask 8 8 6 3) (6, 3) [(6, 3)]).
  - repeat constructor.
  - exact empty_2x2_no_true_pixel.
  - vm_compute. reflexivity.
Defined.

(** ** More on the forces *)

Section ForcesWithoutPairs.

Variable fl : float_ops.

Lemma force_inner_unchanged (force_type : Z) (diam : list point)
  (fline : list label) (p : nat) (rs : list nat) (force : number fl) :
  (forall r, In r rs -> label_eqb (nth r fline L_) LB = false) ->
  force_inner fl force_type diam fline p rs force = Ok force.
Proof.
  induction rs as [|r rs IH]; intros H; simpl; [reflexivity|].
  rewrite (H r) by (left; reflexivity).
  apply IH. intros; apply H; right; assumption.
Qed.

Lemma force_outer_unchanged (force_type : Z) (diam : list point)
  (fline : list label) (ps : list nat) (force : number fl) :
  (forall p r, (p < r)%nat -> nth p fline L_ = LA -> nth r fline L_ = LB -> False) ->
  force_outer fl force_type diam fline ps force = Ok force.
Proof.
  intros H. induction ps as [|p ps IH]; simpl; [reflexivity|].
  destruct (label_eqb (nth p fline L_) LA) eqn:EA; [|exact IH].
  apply label_eqb_eq in EA.
  rewrite force_inner_unchanged; [simpl bind; exact IH|].
  intros r Hr. apply in_seq in Hr.
  destruct (label_eqb (nth r fline L_) LB) eqn:EB; [|reflexivity].
  apply label_eqb_eq in EB. exfalso.
  destruct (Nat.eq_dec r p) as [->|Hne]; [congruence|].
  apply (H p r); [lia|exact EA|exact EB].
Qed.

End ForcesWithoutPairs.

(** X17.  For every force type, a diameter on which no point labelled A
    comes before a point labelled B has the force 0 (the integer), and no
    distance is computed for it. *)
Theorem line_force_zero_without_pair (fl : float_ops) (force_type : Z)
  (diam : list point) (fline : list label) :
  (forall p r, (p < r)%nat -> nth p fline L_ = LA -> nth r fline L_ = LB -> False) ->
  line_force fl force_type diam fline = Ok (Int 0).
Proof.
  intros H. unfold line_force.
  destruct (existsb (label_eqb LA) fline && existsb (label_eqb LB) fline);
    [|reflexivity].
  apply force_outer_unchanged. exact H.
Qed.

Lemma line_force_zero_without_pair_witness :
  line_force q_ops 2 [(0, 0); (1, 0); (2, 0); (3, 0)] [LB; L_; LA; LA] = Ok (Int 0).
Proof.
  apply (line_force_zero_without_pair q_ops 2
           [(0, 0); (1, 0); (2, 0); (3, 0)] [LB; L_; LA; LA]).
  intros p r Hlt HA HB.
  destruct p as [|[|[|[|p]]]]; simpl in HA; try discriminate;
    try (destruct p; discriminate);
    destruct r as [|[|[|[|r]]]]; simpl in HB; try discriminate;
    try (destruct r; discriminate); lia.
Defined.

Lemma sumZ_nonneg (l : list Z) : (forall z, In z l -> 0 <= z) -> 0 <= sumZ l.
Proof.
  induction l as [|z l IH]; intros H; simpl; [lia|].
  assert (0 <= z) by (apply H; left; reflexivity).
  assert (0 <= sumZ l) by (apply IH; intros; apply H; right; assumption).
  lia.
Qed.

Lemma pair_sum_trunc_nonneg (diam : list point) (fline : list label) :
  0 <= pair_sum_trunc diam fline.
Proof.
  unfold pair_sum_trunc. apply sumZ_nonneg. intros z Hz.
  apply in_map_iff in Hz. destruct Hz as [pr [<- _]].
  unfold int_dist. apply Z.sqrt_nonneg.
Qed.

(** X18.  With force type 0, whenever [forces] returns, it returns one
    value per diameter and every value is a non-negative integer. *)
Theorem forces_type0_nonnegative (fl : float_ops) (objects : list mask)
  (diameters : list (list point)) (fs : list (number fl)) :
  forces fl objects diameters 0 = Ok fs ->
  length fs = length diameters
  /\ Forall (fun v => exists z, v = Int z /\ 0 <= z) fs.
Proof.
  unfold forces.
  destruct (mapM (mapM (travel_label objects)) diameters) as [travels|] eqn:T;
    [|discriminate].
  simpl bind.
  rewrite (mapM_pure _ (fun df => Int (pair_sum_trunc (fst df) (snd df))))
    by (intros; apply line_force_type0).
  intros H. injection H as <-. split.
  - rewrite length_map, length_combine. apply mapM_length in T. lia.
  - apply Forall_forall. intros v Hv. apply in_map_iff in Hv.
    destruct Hv as [df [<- _]]. eexists. split; [reflexivity|].
    apply pair_sum_trunc_nonneg.
Qed.

Lemma forces_type0_nonnegative_witness :
  length [@Int q_ops 5; Int 0] = 2%nat
  /\ Forall (fun v => exists z, v = @Int q_ops z /\ 0 <= z) [Int 5; Int 0].
Proof.
  apply (forces_type0_nonnegative q_ops [dot_mask 8 8 1 3; dot_mask 8 8 6 3]
           [[(6, 3); (5, 3); (4, 3); (3, 3); (2, 3); (1, 3); (0, 3)];
            [(3, 0); (3, 1); (3, 2)]]).
  reflexivity.
Defined.

(** X19.  On rectangular masks [travel_label] never raises, and the mask
    tested first is [objects[1]]: a point inside it is labelled A, also
    when it is inside [objects[0]] too; a point inside [objects[0]] only
    is labelled B, and any other point is background. *)
Theorem travel_label_second_mask_first (a b : mask) (pt : point) :
  rectangular a -> rectangular b ->
  (inside b pt = true -> travel_label [a; b] pt = Ok LA)
  /\ (inside b pt = false -> inside a pt = true ->
      travel_label [a; b] pt = Ok LB)
  /\ (inside b pt = false -> inside a pt = false ->
      travel_label [a; b] pt = Ok L_).
Proof.
  intros Ha Hb. rewrite (travel_label_total a b pt Ha Hb). unfold label_spec.
  repeat split; intros; repeat match goal with H : inside _ _ = _ |- _ => rewrite H; clear H end;
    reflexivity.
Qed.

Lemma travel_label_second_mask_first_witness :
  travel_label [full_mask 3 3; dot_mask 3 3 1 1] (1, 1) = Ok LA.
Proof.
  apply (travel_label_second_mask_first (full_mask 3 3) (dot_mask 3 3 1 1) (1, 1)).
  - repeat constructor.
  - repeat constructor.
  - reflexivity.
Defined.

(** ** Masks built from bounding boxes *)

Lemma nth_range (k : Z) (n : nat) (d : Z) :
  (n < Z.to_nat k)%nat -> nth n (range k) d = Z.of_nat n.
Proof.
  intros H. unfold range.
  rewrite (nth_indep _ d (Z.of_nat 0)) by (rewrite length_map, length_seq; exact H).
  rewrite map_nth. rewrite seq_nth by exact H. reflexivity.
Qed.

Lemma nth_map_range {B : Type} (g : Z -> B) (k : Z) (n : nat) (d : B) :
  (n < Z.to_nat k)%nat -> nth n (map g (range k)) d = g (Z.of_nat n).
Proof.
  intros H.
  rewrite (nth_indep _ d (g 0)) by (rewrite length_map, range_length; exact H).
  rewrite map_nth. rewrite nth_range by exact H. reflexivity.
Qed.

Lemma bbox_value_box (obj : annotation_object) (x_min x_max y_min y_max : Z)
  (more : list Z) (x y : Z) :
  bbox obj = x_min :: x_max :: y_min :: y_max :: more ->
  bbox_value obj x y
  = Ok ((y_min <=? y) && (y <=? y_max) && ((x_min <=? x) && (x <=? x_max))).
Proof.
  intros H. unfold bbox_value. rewrite H.
  rewrite (py_get_nonneg _ 0 0) by (unfold len; simpl length; lia).
  rewrite (py_get_nonneg _ 1 0) by (unfold len; simpl length; lia).
  rewrite (py_get_nonneg _ 2 0) by (unfold len; simpl length; lia).
  rewrite (py_get_nonneg _ 3 0) by (unfold len; simpl length; lia).
  reflexivity.
Qed.

(** X20.  For an annotation whose bounding box has its four entries
    [x_min, x_max, y_min, y_max], the mask that [SpatialSense_learning]
    builds has [size_y] rows of [size_x] columns each (it is rectangular,
    and square only when the two sizes agree), and it is true exactly at
    the grid positions (x, y) with [x_min <= x <= x_max] and
    [y_min <= y <= y_max]. *)
Theorem bbox_image_is_the_box (obj : annotation_object)
  (x_min x_max y_min y_max : Z) (more : list Z) (size_x size_y : Z) :
  bbox obj = x_min :: x_max :: y_min :: y_max :: more ->
  exists m,
    bbox_image obj size_x size_y = Ok m
    /\ len m = Z.max 0 size_y
    /\ Forall (fun row => len row = Z.max 0 size_x) m
    /\ forall x y,
         mask_at m x y = true
         <-> 0 <= x < size_y /\ 0 <= y < size_x
             /\ x_min <= x <= x_max /\ y_min <= y <= y_max.
Proof.
  intros Hb. unfold bbox_image.
  set (box := fun x y =>
         (y_min <=? y) && (y <=? y_max) && ((x_min <=? x) && (x <=? x_max))).
  exists (map (fun x => map (fun y => box x y) (range size_x)) (range size_y)).
  split; [|split; [|split]].
  - apply mapM_pure. intros x _. apply mapM_pure. intros y _.
    apply (bbox_value_box obj x_min x_max y_min y_max more). exact Hb.
  - unfold len. rewrite length_map, range_length. lia.
  - apply Forall_forall. intros row Hrow. apply in_map_iff in Hrow.
    destruct Hrow as [x [<- _]]. unfold len. rewrite length_map, range_length. lia.
  - intros x y. unfold mask_at.
    destruct (Z.leb_spec 0 x) as [Hx|Hx]; [|simpl; split; [discriminate|lia]].
    destruct (Z.leb_spec 0 y) as [Hy|Hy]; [|simpl; split; [discriminate|lia]].
    simpl andb.
    destruct (Z_lt_ge_dec x size_y) as [Hx1|Hx1].
    + rewrite nth_map_range by lia.
      destruct (Z_lt_ge_dec y size_x) as [Hy1|Hy1].
      * rewrite nth_map_range by lia. rewrite !Z2Nat.id by lia.
        unfold box. rewrite !andb_true_iff, !Z.leb_le. lia.
      * rewrite nth_overflow by (rewrite length_map, range_length; lia).
        split; [discriminate|lia].
    + rewrite (nth_overflow (map _ (range size_y)))
        by (rewrite length_map, range_length; lia).
      rewrite nth_nil_false. split; [discriminate|lia].
Qed.

Lemma bbox_image_is_the_box_witness :
  exists m,
    bbox_image {| bbox := [1; 2; 0; 3] |} 5 3 = Ok m
    /\ len m = Z.max 0 3
    /\ Forall (fun row => len row = Z.max 0 5) m
    /\ forall x y,
         mask_at m x y = true
         <-> 0 <= x < 3 /\ 0 <= y < 5 /\ 1 <= x <= 2 /\ 0 <= y <= 3.
Proof.
  apply (bbox_image_is_the_box {| bbox := [1; 2; 0; 3] |} 1 2 0 3 [] 5 3).
  reflexivity.
Defined.

(** X21.  An annotation whose bounding box has fewer than four entries
    makes [bbox_value] raise [IndexError] at every position. *)
Theorem bbox_value_short_box (obj : annotation_object) (x y : Z) :
  (length (bbox obj) < 4)%nat -> bbox_value obj x y = Err IndexError.
Proof.
  intros H. unfold bbox_value.
  destruct (bbox obj) as [|a [|b [|c [|d more]]]]; try reflexivity.
  simpl in H. lia.
Qed.

Lemma bbox_value_short_box_witness :
  bbox_value {| bbox := [1; 2; 0] |} 0 0 = Err IndexError.
Proof.
  apply (bbox_value_short_box {| bbox := [1; 2; 0] |} 0 0). simpl. lia.
Defined.

(** ** Square masks, witnessed *)

Lemma object_contour_square_witness :
  exists contour,
    object_contour (full_mask 3 3) = Ok contour
    /\ forall x y, In (x, y) contour <-> is_contour_spec (full_mask 3 3) x y = true.
Proof.
  apply (object_contour_square (full_mask 3 3)).
  split; [repeat constructor|reflexivity].
Defined.

(** ** The forces are always defined *)

Lemma nth_map_label (f : point -> label) (diam : list point) (p : nat) :
  (p < length diam)%nat ->
  nth p (map f diam) L_ = f (nth p diam (0, 0)).
Proof.
  intros H. rewrite (nth_indep _ L_ (f (0, 0))) by (rewrite length_map; exact H).
  apply map_nth.
Qed.

(** Two positions of a diameter that [travel_label] labels A and B hold
    different points, since the label is a function of the point. *)
Lemma labelled_points_differ (a b : mask) (diam : list point) (p r : nat) :
  (p < length diam)%nat -> (r < length diam)%nat ->
  nth p (map (label_spec b a) diam) L_ = LA ->
  nth r (map (label_spec b a) diam) L_ = LB ->
  1 <= int_dist (nth p diam (0, 0)) (nth r diam (0, 0)).
Proof.
  intros Hp Hr HA HB. rewrite nth_map_label in HA, HB by assumption.
  apply int_dist_distinct. intros Heq. rewrite Heq in HA. congruence.
Qed.

(** X22.  On rectangular masks [forces] returns one value per diameter for
    every force type and every list of diameters: a point labelled A and a
    point labelled B are never the same point, so the distance between them
    is at least 1 and the logarithmic term never divides by zero. *)
Theorem forces_always_defined (fl : float_ops) (a b : mask)
  (diameters : list (list point)) (force_type : Z) :
  rectangular a -> rectangular b ->
  exists fs,
    forces fl [a; b] diameters force_type = Ok fs
    /\ length fs = length diameters.
Proof.
  intros Ha Hb. unfold forces.
  rewrite (mapM_pure _ (map (label_spec b a))).
  2:{ intros d _. apply mapM_pure. intros pt _. apply travel_label_total; assumption. }
  simpl bind.
  destruct (mapM_ok (fun df => line_force fl force_type (fst df) (snd df))
                    (combine diameters (map (map (label_spec b a)) diameters)))
    as [fs Hfs].
  - intros [d t] Hin. apply in_combine_map in Hin. destruct Hin as [_ ->]. simpl.
    unfold line_force.
    destruct (existsb (label_eqb LA) (map (label_spec b a) d)
              && existsb (label_eqb LB) (map (label_spec b a) d));
      [|eexists; reflexivity].
    apply force_outer_ok. intros p r Hp HA Hr HB. right.
    apply in_seq in Hp. apply in_seq in Hr. rewrite length_map in Hp, Hr.
    apply (labelled_points_differ a b d p r); try lia; assumption.
  - exists fs. split; [exact Hfs|].
    apply mapM_length in Hfs. rewrite Hfs. apply combine_map_length.
Qed.

Lemma forces_always_defined_witness :
  exists fs,
    forces q_ops [full_mask 2 2; dot_mask 2 2 0 0] [[(0, 0); (1, 1); (0, 0); (1, 1)]] 2
    = Ok fs
    /\ length fs = 1%nat.
Proof.
  apply (forces_always_defined q_ops (full_mask 2 2) (dot_mask 2 2 0 0)
           [[(0, 0); (1, 1); (0, 0); (1, 1)]] 2); repeat constructor.
Defined.

(** ** Small contours and empty lines *)

(** X23.  A contour of at most two points is not pruned: [convex_hull]'s
    loop does not run, and the hull sequence is the whole slope-sorted
    contour, a sequence of fewer than three points returned without
    error. *)
Theorem small_contour_is_its_own_hull (contour : list point) :
  (length contour <= 2)%nat ->
  convex_hull_of_contour contour
  = Some (Ok (get_corner_pixel contour,
              sortby_slope (get_corner_pixel contour) contour)).
Proof.
  intros H. unfold convex_hull_of_contour, prune.
  set (s := sortby_slope (get_corner_pixel contour) contour).
  assert (Hs : (length s <= 2)%nat).
  { subst s. unfold sortby_slope.
    rewrite (Permutation_length (sorted_by_perm _ contour)). exact H. }
  assert (Hstep : prune_step s 1 = None).
  { unfold prune_step. replace (1 <? len s - 1) with false; [reflexivity|].
    symmetry. apply Z.ltb_ge. unfold len. lia. }
  destruct (prune_fuel s); simpl; rewrite Hstep; reflexivity.
Qed.

Lemma small_contour_is_its_own_hull_witness :
  convex_hull_of_contour [(3, 4); (1, 2)] = Some (Ok ((1, 2), [(3, 4); (1, 2)])).
Proof.
  apply (small_contour_is_its_own_hull [(3, 4); (1, 2)]). simpl. lia.
Defined.

Lemma mapM_first_error {A B : Type} (f : A -> result B) (l1 l2 : list A)
  (a : A) (e : exn) :
  (forall x, In x l1 -> exists b, f x = Ok b) -> f a = Err e ->
  mapM f (l1 ++ a :: l2) = Err e.
Proof.
  induction l1 as [|x l1 IH]; intros H He; simpl.
  - rewrite He. reflexivity.
  - destruct (H x) as [b Hb]; [left; reflexivity|]. rewrite Hb. simpl bind.
    rewrite IH; [reflexivity| |exact He]. intros; apply H; right; assumption.
Qed.

(** X24.  On rectangular masks, when one of the half-lines is empty,
    [radial_line_model] raises [ZeroDivisionError]: the occupancy of the
    empty line divides by its length 0. *)
Theorem radial_line_model_empty_line (lines : list (list point)) (a b : mask) :
  rectangular a -> rectangular b -> In [] lines ->
  radial_line_model lines [a; b] = Err ZeroDivisionError.
Proof.
  intros Ha Hb Hin. unfold radial_line_model.
  assert (Hsplit : exists l1 l2, lines = l1 ++ [] :: l2
                                 /\ Forall (fun line => line <> []) l1).
  { clear Ha Hb. induction lines as [|x lines IH]; [contradiction|].
    destruct x as [|p x].
    - exists [], lines. split; [reflexivity|constructor].
    - destruct Hin as [Hin|Hin]; [discriminate|].
      destruct (IH Hin) as [l1 [l2 [-> Hl1]]].
      exists ((p :: x) :: l1), l2. split; [reflexivity|].
      constructor; [discriminate|exact Hl1]. }
  destruct Hsplit as [l1 [l2 [-> Hl1]]]. rewrite Forall_forall in Hl1.
  rewrite (mapM_first_error _ l1 l2 [] ZeroDivisionError); [reflexivity| |].
  - intros line Hline. rewrite py_get_0, py_get_1. simpl bind.
    rewrite (rlm_entry_occupancy a) by auto. simpl bind.
    rewrite (rlm_entry_occupancy b) by auto. eexists. reflexivity.
  - rewrite py_get_0. reflexivity.
Qed.

Lemma radial_line_model_empty_line_witness :
  radial_line_model [[(0, 0)]; []] [full_mask 2 2; full_mask 2 2]
  = Err ZeroDivisionError.
Proof.
  apply (radial_line_model_empty_line [[(0, 0)]; []] (full_mask 2 2) (full_mask 2 2)).
  - repeat constructor.
  - repeat constructor.
  - right. left. reflexivity.
Defined.

(** ** The three histograms and the number of samples *)


(** In binary64 the number of samples is not always the floor of the exact
    quotient of its operands: at a tenth of a degree the float division
    rounds up to 3600.0, so 3600 samples are taken, while the exact
    quotient of the two floats is below 3600 and its floor is 3599. *)
Lemma b64_sample_count_rounds :
  n_samples b64_ops b64_tenth_degree = Ok 3600
  /\ Qfloor (b64_exact (PrimFloat.mul b64_pi (b64_of_int 2))
             / b64_exact b64_tenth_degree)%Q = 3599.
Proof. split; vm_compute; reflexivity. Qed.



